(** * story_weaver: the story progression and visual-continuity engine

    A shallow embedding of [backend/main.py].  Python values are modelled as
    the code uses them: [str] as byte strings holding UTF-8, [int] as [Z],
    [Optional[T]] as [option T], the dict returned by [json.loads] as a JSON
    value whose objects are association lists, and the collaborators (the
    text capability, the image capability, the local image directory, the
    clock) as a read-only [world] of replies plus a [state] that records every
    call made, every delay slept and every file written. *)

From Stdlib Require Import ZArith List String Ascii Bool Lia.
From Stdlib Require Import DecimalString.
Import ListNotations.

Open Scope string_scope.
Open Scope Z_scope.

(** ** Python strings *)

Definition nl : string := String (ascii_of_nat 10) EmptyString.
Definition dq : string := String (ascii_of_nat 34) EmptyString.

(** [bool(s)] for a [str]. *)
Definition str_truthy (s : string) : bool :=
  match s with
  | EmptyString => false
  | String _ _ => true
  end.

(** [bool(o)] for an [Optional[str]]: [None] and the empty string are falsy. *)
Definition opt_truthy (o : option string) : bool :=
  match o with
  | Some s => str_truthy s
  | None => false
  end.

(** [str(n)] for an [int]. *)
Definition str_of_int (n : Z) : string := NilZero.string_of_int (Z.to_int n).

(** [s == o] for a [str] and an [Optional[str]]. *)
Definition str_eq_opt (s : string) (o : option string) : bool :=
  match o with
  | Some s' => String.eqb s s'
  | None => false
  end.

(** [f"{o}"] for an [Optional[str]]. *)
Definition fmt_opt (o : option string) : string :=
  match o with
  | Some s => s
  | None => "None"
  end.

(** *** Whitespace and [str.strip]

    [str.strip()] removes the code points for which [str.isspace] holds:
    U+0009..U+000D, U+001C..U+0020, U+0085, U+00A0, U+1680, U+2000..U+200A,
    U+2028, U+2029, U+202F, U+205F and U+3000.  On the UTF-8 bytes these are
    one, two or three byte sequences. *)

Definition byte_in (lo hi : N) (c : ascii) : bool :=
  (N.leb lo (N_of_ascii c) && N.leb (N_of_ascii c) hi)%bool.

Definition space1 (a : ascii) : bool := byte_in 9 13 a || byte_in 28 32 a.

Definition space2 (a b : ascii) : bool :=
  byte_in 194 194 a && (byte_in 133 133 b || byte_in 160 160 b).

Definition space3 (a b c : ascii) : bool :=
  (byte_in 225 225 a && byte_in 154 154 b && byte_in 128 128 c)
  || (byte_in 226 226 a && byte_in 128 128 b
      && (byte_in 128 138 c || byte_in 168 169 c || byte_in 175 175 c))
  || (byte_in 226 226 a && byte_in 129 129 b && byte_in 159 159 c)
  || (byte_in 227 227 a && byte_in 128 128 b && byte_in 128 128 c).

Fixpoint lstrip (s : string) : string :=
  match s with
  | EmptyString => EmptyString
  | String a r =>
      if space1 a then lstrip r
      else
        match r with
        | EmptyString => s
        | String b r' =>
            if space2 a b then lstrip r'
            else
              match r' with
              | EmptyString => s
              | String c r'' => if space3 a b c then lstrip r'' else s
              end
        end
  end.

(** The same scan from the right end, on the reversed byte list. *)
Fixpoint rstrip_rev (l : list ascii) : list ascii :=
  match l with
  | [] => []
  | a :: r =>
      if space1 a then rstrip_rev r
      else
        match r with
        | [] => l
        | b :: r' =>
            if space2 b a then rstrip_rev r'
            else
              match r' with
              | [] => l
              | c :: r'' => if space3 c b a then rstrip_rev r'' else l
              end
        end
  end.

Definition rstrip (s : string) : string :=
  string_of_list_ascii (rev (rstrip_rev (rev (list_ascii_of_string s)))).

Definition strip (s : string) : string := rstrip (lstrip s).

(** [os.path.basename] on a POSIX path: what follows the last slash. *)
Fixpoint has_slash (s : string) : bool :=
  match s with
  | EmptyString => false
  | String c r => Ascii.eqb c "/" || has_slash r
  end.

Fixpoint basename (s : string) : string :=
  match s with
  | EmptyString => EmptyString
  | String c r =>
      if has_slash r then basename r
      else if Ascii.eqb c "/" then r else s
  end.

(** ** JSON values, as [json.loads] returns them

    A JSON object becomes a Python dict; it is kept as an association list in
    which the first binding of a key is the live one, so that an item
    assignment is a cons. *)

#[local] Set Warnings "-register-all".

Inductive json :=
| JNull
| JBool (b : bool)
| JInt (n : Z)
| JFloat (mantissa exponent : Z)
| JStr (s : string)
| JArr (items : list json)
| JObj (fields : list (string * json)).

Definition dict := list (string * json).

Fixpoint dict_get (d : dict) (key : string) : option json :=
  match d with
  | [] => None
  | (k, v) :: rest => if String.eqb k key then Some v else dict_get rest key
  end.

Definition dict_set (d : dict) (key : string) (v : json) : dict :=
  (key, v) :: d.

(** ** Exceptions and results *)

Inductive exn :=
| ValueError (msg : string)
| KeyError (key : string)
| TypeError
| OverflowError
| OSError
| ValidationError (msg : string)
| HTTPException (status_code : Z) (detail : string)
| ServiceError (msg : string)
| JSONDecodeError (msg : string)
| UnboundLocalError (name : string).

Inductive result (A : Type) :=
| Ret (a : A)
| Raise (e : exn).

Arguments Ret {A} a.
Arguments Raise {A} e.

(** ** The collaborators *)

Definition bytes := string.

(** A decoded picture (a [PIL.Image]); it is kept as the bytes it was opened
    from.  An [Image] object defines neither [__bool__] nor [__len__], so it
    is always truthy: [if img] on an [Optional[Image]] tests for [None]. *)
Definition image := bytes.

(** One entry of the untyped [contents] list handed to a capability. *)
Inductive part :=
| TextPart (text : string)
| ImagePart (img : image).

Inductive text_reply :=
| TextRaises (e : exn)          (* the call, or reading its text, raised *)
| TextNotJson (raw : string)    (* json.loads raises JSONDecodeError *)
| TextJson (value : json).      (* json.loads returns this value *)

Inductive image_reply :=
| ImageRaises (e : exn)                 (* the call or the walk to [parts] raised *)
| ImageParts (inline_data : list (option bytes)).

Inductive entry :=
| Directory
| File (content : bytes).

Record world := {
  BASE_URL : string;
  (** [gemini-2.5-flash] on a contents list *)
  text_model : list part -> text_reply;
  (** [gemini-2.5-flash-image-preview]: the reply to the n-th call made *)
  image_model : nat -> list part -> image_reply;
  (** [Image.open] on a byte string: does it identify a picture *)
  identifies : bytes -> bool;
  (** does [image.save] to this path raise *)
  save_raises : string -> bool;
  (** the n-th token [uuid.uuid4()] draws, as printed *)
  uuid4 : nat -> string;
  (** [base64.b64decode]; [None] when it raises *)
  b64decode : string -> option bytes;
  (** [str(v)] of a JSON value that is not a string *)
  str_of_json : json -> string;
  (** the PNG file [image.save] writes for a picture *)
  png_bytes : image -> bytes;
  (** a PNG file that [image.save] wrote opens as a picture *)
  png_opens : forall img, identifies (png_bytes img) = true
}.

Inductive event :=
| TextCall (contents : list part)
| ImageCall (contents : list part)
| Sleep (delay : Z)
| Saved (path : string).

(** What a request changes: the calls made and delays slept, in the order
    they happen, the files under the working directory, and how many image
    calls and tokens have been used. *)
Record state := {
  events : list event;
  files : string -> option entry;
  image_calls : nat;
  tokens : nat
}.

Definition log (ev : event) (st : state) : state :=
  {| events := events st ++ [ev]; files := files st;
     image_calls := image_calls st; tokens := tokens st |}.

(** ** Effects: state passing with exceptions *)

Definition M (A : Type) : Type := state -> result A * state.

Definition ret {A : Type} (a : A) : M A := fun st => (Ret a, st).

Definition raise {A : Type} (e : exn) : M A := fun st => (Raise e, st).

Definition bind {A B : Type} (m : M A) (k : A -> M B) : M B :=
  fun st =>
    match m st with
    | (Ret a, st') => k a st'
    | (Raise e, st') => (Raise e, st')
    end.

(** [try: m except Exception as e: h e]; every [exn] is an [Exception]. *)
Definition try_except {A : Type} (m : M A) (h : exn -> M A) : M A :=
  fun st =>
    match m st with
    | (Ret a, st') => (Ret a, st')
    | (Raise e, st') => h e st'
    end.

Definition lift {A : Type} (r : result A) : M A := fun st => (r, st).

Declare Scope py_scope.
Delimit Scope py_scope with py.
Notation "x <- m ;; k" := (bind m (fun x => k))
  (at level 61, m at next level, right associativity) : py_scope.
Notation "m ;;; k" := (bind m (fun _ => k))
  (at level 61, right associativity) : py_scope.
Open Scope py_scope.

Definition time_sleep (delay : Z) : M unit :=
  fun st => (Ret tt, log (Sleep delay) st).

(** The state after one more call to the image capability. *)
Definition called (contents : list part) (st : state) : state :=
  {| events := events st ++ [ImageCall contents]; files := files st;
     image_calls := S (image_calls st); tokens := tokens st |}.

Definition call_image_model (w : world) (contents : list part) : M image_reply :=
  fun st => (Ret (image_model w (image_calls st) contents), called contents st).

Definition call_text_model (w : world) (contents : list part) : M text_reply :=
  fun st => (Ret (text_model w contents), log (TextCall contents) st).

Definition uuid_uuid4 (w : world) : M string :=
  fun st =>
    (Ret (uuid4 w (tokens st)),
     {| events := events st; files := files st;
        image_calls := image_calls st; tokens := S (tokens st) |}).

Definition os_path_exists (path : string) : M bool :=
  fun st =>
    (Ret match files st path with Some _ => true | None => false end, st).

(** [Image.open(BytesIO(data))] *)
Definition image_open_bytes (w : world) (data : bytes) : M image :=
  if identifies w data then ret data else raise OSError.

(** [Image.open(path)] *)
Definition image_open_path (w : world) (path : string) : M image :=
  fun st =>
    match files st path with
    | Some (File data) => image_open_bytes w data st
    | Some Directory => (Raise OSError, st)
    | None => (Raise OSError, st)
    end.

(** [image.save(path)]: the file written is the PNG encoding of the
    picture, not the bytes the picture was opened from. *)
Definition image_save (w : world) (img : image) (path : string) : M unit :=
  fun st =>
    if save_raises w path then (Raise OSError, st)
    else
      (Ret tt,
       {| events := events st ++ [Saved path];
          files := fun p =>
            if String.eqb p path then Some (File (png_bytes w img))
            else files st p;
          image_calls := image_calls st; tokens := tokens st |}).

(** [os.makedirs(path, exist_ok=True)] *)
Definition os_makedirs (path : string) : M unit :=
  fun st =>
    match files st path with
    | Some (File _) => (Raise OSError, st)
    | Some Directory => (Ret tt, st)
    | None =>
        (Ret tt,
         {| events := events st;
            files := fun p => if String.eqb p path then Some Directory else files st p;
            image_calls := image_calls st; tokens := tokens st |})
    end.

(** ** Image generation client: [_blocking_image_generation] *)

Definition max_retries : Z := 3.
Definition initial_delay : Z := 2.

Definition no_image_data : exn := ValueError "API虽成功但未返回图片数据".

(** The walk over [response.candidates[0].content.parts]: the data of the
    first part whose [inline_data] is not [None], else the [ValueError]. *)
Fixpoint first_inline (parts : list (option bytes)) : result bytes :=
  match parts with
  | [] => Raise no_image_data
  | Some data :: _ => Ret data
  | None :: rest => first_inline rest
  end.

(** The body of the [try] of one attempt. *)
Definition attempt_outcome (reply : image_reply) : result bytes :=
  match reply with
  | ImageRaises e => Raise e
  | ImageParts parts => first_inline parts
  end.

(** The [for attempt in range(max_retries)] loop, from [attempt] on with
    [remaining] iterations left. *)
Fixpoint image_attempts (w : world) (contents : list part)
    (remaining : nat) (attempt : Z) : M bytes :=
  match remaining with
  | O => raise (ValueError "未能从API相应中获取图片数据，且重试机制异常结束")
  | S k =>
      reply <- call_image_model w contents ;;
      match attempt_outcome reply with
      | Ret data => ret data
      | Raise e =>
          if attempt <? max_retries - 1
          then time_sleep (initial_delay * 2 ^ attempt) ;;;
               image_attempts w contents k (attempt + 1)
          else raise e
      end
  end.

Definition image_contents (prompt : string) (previous_image : option image)
    : list part :=
  TextPart prompt ::
  match previous_image with
  | Some img => [ImagePart img]
  | None => []
  end.

Definition _blocking_image_generation (w : world) (prompt : string)
    (previous_image : option image) : M bytes :=
  image_attempts w (image_contents prompt previous_image)
    (Z.to_nat max_retries) 0.

(** ** Continuity image orchestrator: [generate_consistent_image] *)

Definition placeholder_url : string :=
  "https://via.placeholder.com/512x512.png?text=Image+Generation+Failed".

(** The reference picture: the caller's, else the stored file of the
    previous address when there is one. *)
Definition previous_image_object (w : world)
    (previous_image_url : option string) (initial_image : option image)
    : M (option image) :=
  match initial_image, previous_image_url with
  | Some img, _ => ret (Some img)
  | None, Some url =>
      if str_truthy url then
        let local_image_path := "generated_images/" ++ basename url in
        found <- os_path_exists local_image_path ;;
        if found : bool
        then img <- image_open_path w local_image_path ;; ret (Some img)
        else ret None
      else ret None
  | None, None => ret None
  end.

(** The body of the [try]. *)
Definition generate_and_store (w : world) (prompt : string)
    (previous_image_url : option string) (initial_image : option image)
    : M string :=
  reference <- previous_image_object w previous_image_url initial_image ;;
  image_data <- _blocking_image_generation w prompt reference ;;
  img <- image_open_bytes w image_data ;;
  os_makedirs "generated_images" ;;;
  token <- uuid_uuid4 w ;;
  let filename := token ++ ".png" in
  let save_path := "generated_images/" ++ filename in
  image_save w img save_path ;;;
  ret (BASE_URL w ++ "/images/" ++ filename).

(** The [except Exception] handler. *)
Definition fallback_url (previous_image_url : option string) : string :=
  match previous_image_url with
  | Some url => if str_truthy url then url else placeholder_url
  | None => placeholder_url
  end.

Definition generate_consistent_image (w : world) (prompt : string)
    (previous_image_url : option string) (initial_image : option image)
    : M string :=
  try_except
    (generate_and_store w prompt previous_image_url initial_image)
    (fun _ => ret (fallback_url previous_image_url)).

(** ** Binary64 arithmetic of [total_steps * 0.75]

    A finite double is [mant * 2 ^ expo].  [round_to_53] rounds to the nearest
    value with a 53-bit significand, ties to even; the numbers that occur
    here (an [int], and its product with 0.75) are never subnormal. *)

Record float := { mant : Z; expo : Z }.

Definition round_to_53 (m e : Z) : float :=
  let a := Z.abs m in
  let bits := Z.log2 a + 1 in
  if bits <=? 53 then {| mant := m; expo := e |}
  else
    let s := bits - 53 in
    let q := a / 2 ^ s in
    let r := a mod 2 ^ s in
    let half := 2 ^ (s - 1) in
    let q' := if (half <? r) || ((r =? half) && Z.odd q) then q + 1 else q in
    {| mant := Z.sgn m * q'; expo := e + s |}.

(** [float(n)] for an [int]: [OverflowError] past the largest double. *)
Definition float_of_int (n : Z) : result float :=
  let f := round_to_53 n 0 in
  if 2 ^ 1024 <=? Z.abs (mant f) * 2 ^ expo f then Raise OverflowError
  else Ret f.

Definition three_quarters : float := {| mant := 3; expo := -2 |}.

(** [n * f] for an [int] and a double [f] with [2^-1022 <= |f| <= 1]: the
    product of the converted integer can neither overflow nor underflow. *)
Definition int_times_float (n : Z) (f : float) : result float :=
  match float_of_int n with
  | Ret x => Ret (round_to_53 (mant x * mant f) (expo x + expo f))
  | Raise e => Raise e
  end.

(** [c >= f] for an [int] and a double: Python compares the exact values. *)
Definition int_ge_float (c : Z) (f : float) : bool :=
  if 0 <=? expo f then mant f * 2 ^ expo f <=? c
  else mant f <=? c * 2 ^ (- expo f).

(** ** Data model *)

Module StoryChoice.
Record t := mk { id : string; text : string }.
End StoryChoice.

Module StoryResponse.
Record t := mk {
  text : string;
  image_url : option string;
  choices : list StoryChoice.t;
  main_quest : string
}.
End StoryResponse.

Module StoryStartRequest.
Record t := mk {
  character : option string;
  setting : string;
  total_steps : Z;
  image_data_url : option string
}.

(** The decoded request body the [mode='before'] validator sees, for bodies
    whose values have the declared types: an optional key is missing
    ([None]), null ([Some None]) or a string. *)
Record data := mk_data {
  raw_character : option (option string);
  raw_setting : string;
  raw_total_steps : Z;
  raw_image_data_url : option (option string)
}.

(** ['key' in data and data['key'] is not None and data['key'].strip() != ""] *)
Definition nonblank (field : option (option string)) : bool :=
  match field with
  | Some (Some s) => negb (String.eqb (strip s) EmptyString)
  | _ => false
  end.

Definition field_value (field : option (option string)) : option string :=
  match field with
  | Some v => v
  | None => None
  end.

Definition character_exists (d : data) : bool := nonblank (raw_character d).

Definition image_exists (d : data) : bool := nonblank (raw_image_data_url d).

Definition check_character_or_image (d : data) : result data :=
  if negb (character_exists d) && negb (image_exists d)
  then Raise (ValueError "必须提供 character 或 image_data_url 中的一个来指定故事主角。")
  else Ret d.

Definition model_validate (d : data) : result t :=
  match check_character_or_image d with
  | Raise (ValueError msg) => Raise (ValidationError msg)
  | Raise e => Raise e
  | Ret d' =>
      Ret {| character := field_value (raw_character d');
             setting := raw_setting d';
             total_steps := raw_total_steps d';
             image_data_url := field_value (raw_image_data_url d') |}
  end.
End StoryStartRequest.

Module NextStepRequest.
Record t := mk {
  choice_id : option string;
  user_action : option string;
  story_history : list StoryResponse.t;
  previous_image_url : option string;
  current_step : Z;
  total_steps : Z
}.

(** The decoded request body the [mode='before'] validator sees, for bodies
    whose values have the declared types: an optional key is missing
    ([None]), null ([Some None]) or a string. *)
Record data := mk_data {
  raw_choice_id : option (option string);
  raw_user_action : option (option string);
  raw_story_history : list StoryResponse.t;
  raw_previous_image_url : option (option string);
  raw_current_step : Z;
  raw_total_steps : Z
}.

(** ['key' in data and data['key'] is not None] *)
Definition present (field : option (option string)) : bool :=
  match field with
  | Some (Some _) => true
  | _ => false
  end.

(** The value a field takes: its default [None] when the key is missing. *)
Definition field_value (field : option (option string)) : option string :=
  match field with
  | Some v => v
  | None => None
  end.

Definition choice_exists (d : data) : bool := present (raw_choice_id d).

(** [... and data['user_action'].strip()], as a truth value. *)
Definition action_exists (d : data) : bool :=
  match raw_user_action d with
  | Some (Some s) => str_truthy (strip s)
  | _ => false
  end.

Definition check_choice_or_action (d : data) : result data :=
  if choice_exists d && action_exists d
  then Raise (ValueError "不能同时提供 choice_id 和 user_action")
  else if negb (choice_exists d) && negb (action_exists d)
  then Raise (ValueError "必须提供 choice_id 或 user_action 中的一个")
  else Ret d.

(** Model construction: a [ValueError] of the validator is reported as a
    [ValidationError]; then the fields are read. *)
Definition model_validate (d : data) : result t :=
  match check_choice_or_action d with
  | Raise (ValueError msg) => Raise (ValidationError msg)
  | Raise e => Raise e
  | Ret d' =>
      Ret {| choice_id := field_value (raw_choice_id d');
             user_action := field_value (raw_user_action d');
             story_history := raw_story_history d';
             previous_image_url := field_value (raw_previous_image_url d');
             current_step := raw_current_step d';
             total_steps := raw_total_steps d' |}
  end.
End NextStepRequest.

(** ** Narrative generation client: [generate_story_part] *)

Definition text_contents (prompt : string) (image_input : option image)
    : list part :=
  match image_input with
  | Some img => [ImagePart img; TextPart prompt]
  | None => [TextPart prompt]
  end.

(** The two [except] clauses.  A [JSONDecodeError] raised by [json.loads]
    is answered with status 500; one raised by the call itself finds
    [response_text] unbound in the first clause, whose [print] then raises
    [UnboundLocalError] past both clauses. *)
Definition generate_story_part (w : world) (prompt : string)
    (image_input : option image) : M json :=
  reply <- call_text_model w (text_contents prompt image_input) ;;
  match reply with
  | TextJson value => ret value
  | TextNotJson _ => raise (HTTPException 500 "AI response was not valid JSON.")
  | TextRaises (JSONDecodeError _) => raise (UnboundLocalError "response_text")
  | TextRaises (HTTPException status detail) => raise (HTTPException status detail)
  | TextRaises _ =>
      raise (HTTPException 500 "An unexpected error occurred with the Gemini service.")
  end.

(** ** Reading the generator's answer *)

(** [ai_data[key]] *)
Definition subscript (ai_data : json) (key : string) : result json :=
  match ai_data with
  | JObj d =>
      match dict_get d key with
      | Some v => Ret v
      | None => Raise (KeyError key)
      end
  | _ => Raise TypeError
  end.

(** [ai_data[key] = v] *)
Definition assign (ai_data : json) (key : string) (v : json) : result json :=
  match ai_data with
  | JObj d => Ret (JObj (dict_set d key v))
  | _ => Raise TypeError
  end.

(** [f"{v}"] *)
Definition fmt_json (w : world) (v : json) : string :=
  match v with
  | JStr s => s
  | _ => str_of_json w v
  end.

(** A [str] field of a model takes a string and nothing else. *)
Definition str_field (name : string) (v : json) : result string :=
  match v with
  | JStr s => Ret s
  | _ => Raise (ValidationError name)
  end.

(** The constructor [StoryChoice] on an unpacked [choice]: the argument must
    be a mapping; keys other than the two fields are ignored. *)
Definition story_choice (choice : json) : result StoryChoice.t :=
  match choice with
  | JObj d =>
      match dict_get d "id", dict_get d "text" with
      | Some (JStr i), Some (JStr t) => Ret (StoryChoice.mk i t)
      | Some (JStr _), _ => Raise (ValidationError "text")
      | _, _ => Raise (ValidationError "id")
      end
  | _ => Raise TypeError
  end.

Fixpoint story_choices (items : list json) : result (list StoryChoice.t) :=
  match items with
  | [] => Ret []
  | choice :: rest =>
      match story_choice choice with
      | Raise e => Raise e
      | Ret c =>
          match story_choices rest with
          | Raise e => Raise e
          | Ret cs => Ret (c :: cs)
          end
      end
  end.

(** The comprehension that builds a [StoryChoice] from every [choice] in
    [v].  A list is walked; a dict
    yields its keys and a string its characters, on the first of which the
    constructor raises; anything else is not iterable. *)
Definition choice_list (v : json) : result (list StoryChoice.t) :=
  match v with
  | JArr items => story_choices items
  | JObj [] => Ret []
  | JStr EmptyString => Ret []
  | _ => Raise TypeError
  end.

(** ** Prompt composition *)

Definition IMAGE_CONSISTENCY_RULE : string :=
  "you should maintain visual consistency for the main character based on the reference image provided. The character's appearance, features, clothing, and colors must be exactly the same. Now, generate the following scene:".

Definition final_image_prompt (w : world) (image_prompt : json) : string :=
  IMAGE_CONSISTENCY_RULE ++ " " ++ fmt_json w image_prompt.

Definition default_main_quest : string := "继续探索".

Definition main_quest_line (req : NextStepRequest.t) : string :=
  match NextStepRequest.story_history req with
  | first :: _ => StoryResponse.main_quest first
  | [] => default_main_quest
  end.

(** [request.story_history[-1]] when the history is not empty. *)
Fixpoint last_part (history : list StoryResponse.t) : option StoryResponse.t :=
  match history with
  | [] => None
  | [part] => Some part
  | _ :: rest => last_part rest
  end.

Definition default_choice_text : string := "继续".

(** The loop over the previous step's choices, with its [break]. *)
Definition user_choice_text (req : NextStepRequest.t) : string :=
  match last_part (NextStepRequest.story_history req) with
  | None => default_choice_text
  | Some part =>
      match
        find (fun choice =>
                str_eq_opt (StoryChoice.id choice)
                           (NextStepRequest.choice_id req))
             (StoryResponse.choices part)
      with
      | Some choice => StoryChoice.text choice
      | None => default_choice_text
      end
  end.

Definition custom_action_line (user_action : string) : string :=
  "接下来，主角决定自己行动，他/她想：'" ++ user_action ++ "'。".

Definition chosen_option_line (choice_text : string) : string :=
  "在故事的最新发展中，主角选择了选项：'" ++ choice_text ++ "'。".

Definition action_description_line (req : NextStepRequest.t) : string :=
  if opt_truthy (NextStepRequest.user_action req)
  then custom_action_line (fmt_opt (NextStepRequest.user_action req))
  else if opt_truthy (NextStepRequest.choice_id req)
  then chosen_option_line (user_choice_text req)
  else EmptyString.

Definition is_final_step (req : NextStepRequest.t) : bool :=
  NextStepRequest.current_step req =? NextStepRequest.total_steps req.

Definition finale_guidance (quest : string) : string :=
  "这是故事的【最后一幕】。故事的核心任务是：“" ++ quest ++ "”。" ++ nl
  ++ "请你必须围绕这个核心任务，创作一个圆满、清晰的结局，确保主角最终完成了这个任务，并解决所有相关悬念。" ++ nl
  ++ "在你的JSON回答中，" ++ dq ++ "choices" ++ dq
  ++ "字段必须是一个【空数组 `[]`】，因为故事已经结束。".

Definition climax_guidance (current total : Z) : string :=
  "现在是故事的第【" ++ str_of_int current ++ "/" ++ str_of_int total
  ++ "】幕，剧情已接近高潮。" ++ nl
  ++ "请创作一段紧张、关键的情节，将故事推向顶点，为最终解决主线任务做准备。".

Definition developing_guidance (current total : Z) (quest : string) : string :=
  "现在是故事的第【" ++ str_of_int current ++ "/" ++ str_of_int total
  ++ "】幕，剧情正在发展阶段。" ++ nl
  ++ "请创作一段承上启下的情节。最重要的是，这一步必须让主角在完成主线任务：“"
  ++ quest ++ "” 的道路上【取得明确的进展】。" ++ nl
  ++ "可以引入一个帮助解决主线的线索，或者克服一个通往主线的小障碍。".

(** The [if is_final_step / elif current_step >= total_steps * 0.75 / else]
    chain.  The product is only evaluated off the final step. *)
Definition narrative_guidance (req : NextStepRequest.t) : result string :=
  let current := NextStepRequest.current_step req in
  let total := NextStepRequest.total_steps req in
  if is_final_step req then Ret (finale_guidance (main_quest_line req))
  else
    match int_times_float total three_quarters with
    | Raise e => Raise e
    | Ret threshold =>
        if int_ge_float current threshold
        then Ret (climax_guidance current total)
        else Ret (developing_guidance current total (main_quest_line req))
    end.

(** The transcript loop: [i] is the index of the first part of [history]. *)
Fixpoint transcript (i : Z) (history : list StoryResponse.t) : string :=
  match history with
  | [] => EmptyString
  | part :: rest =>
      "第 " ++ str_of_int (i + 1) ++ " 幕: " ++ StoryResponse.text part ++ nl
      ++ transcript (i + 1) rest
  end.

Definition story_context (req : NextStepRequest.t) : string :=
  "这是已经发生的故事梗概，请你续写：" ++ nl ++ nl
  ++ transcript 0 (NextStepRequest.story_history req).

Definition continuation_prompt (req : NextStepRequest.t) (guidance : string)
    : string :=
  story_context req ++ nl
  ++ action_description_line req ++ nl ++ nl
  ++ "--- 核心任务指令 (最重要！) ---" ++ nl
  ++ "请始终围绕故事主线：“" ++ main_quest_line req ++ "”。" ++ nl
  ++ "--- 当前阶段叙事指令 ---" ++ nl
  ++ guidance.

(** ** Reference image decoder: [decode_base64_to_image] *)

(** [base64_string.split(",", 1)[1]] when there is a comma. *)
Fixpoint after_comma (s : string) : option string :=
  match s with
  | EmptyString => None
  | String c r => if Ascii.eqb c "," then Some r else after_comma r
  end.

Definition decode_base64_to_image (w : world) (base64_string : string)
    : M image :=
  let base64_data :=
    match after_comma base64_string with
    | Some data => data
    | None => base64_string
    end in
  match b64decode w base64_data with
  | Some img_bytes => image_open_bytes w img_bytes
  | None => raise (ValueError "Incorrect padding")
  end.

(** ** Story progression controller *)

Definition quest_and_hook : string :=
  "请确保开篇能够建立一个清晰的主线任务，并为后续发展留下悬念。".

Definition planned_length (total : Z) : string :=
  "这个故事的总长度预计为【" ++ str_of_int total ++ "幕】。".

Definition initial_prompt_text (req : StoryStartRequest.t) : string :=
  let setting := StoryStartRequest.setting req in
  let total := StoryStartRequest.total_steps req in
  if opt_truthy (StoryStartRequest.image_data_url req) then
    if opt_truthy (StoryStartRequest.character req) then
      "这是一张用户上传的图片，请以图片中的主要物体或人物作为故事主角，并将主角命名为 '"
      ++ fmt_opt (StoryStartRequest.character req) ++ "'。"
      ++ "在 '" ++ setting ++ "' 场景下，为这个主角创作一个引人入胜的儿童故事开篇。"
      ++ planned_length total ++ quest_and_hook
    else
      "这是一张用户上传的图片，请以图片中的主要物体或人物作为故事主角。"
      ++ "在 '" ++ setting ++ "' 场景下，为这个主角创作一个引人入胜的儿童故事开篇。"
      ++ planned_length total ++ quest_and_hook
  else
    "请为一个关于主角 '" ++ fmt_opt (StoryStartRequest.character req)
    ++ "' 在 '" ++ setting ++ "' 场景下的儿童故事，创作一个引人入胜的开篇。"
    ++ planned_length total ++ quest_and_hook.

(** The response model: [text] and [main_quest] must be strings. *)
Definition story_response (text_value : json) (image_url : string)
    (choices : list StoryChoice.t) (main_quest_value : json)
    : result StoryResponse.t :=
  match str_field "text" text_value with
  | Raise e => Raise e
  | Ret text =>
      match str_field "main_quest" main_quest_value with
      | Raise e => Raise e
      | Ret main_quest =>
          Ret (StoryResponse.mk text (Some image_url) choices main_quest)
      end
  end.

(** The decoded upload, when there is one. *)
Definition image_input_for_gemini (w : world) (req : StoryStartRequest.t)
    : M (option image) :=
  match StoryStartRequest.image_data_url req with
  | Some image_data_url =>
      if str_truthy image_data_url
      then img <- decode_base64_to_image w image_data_url ;; ret (Some img)
      else ret None
  | None => ret None
  end.

Definition start_story (w : world) (req : StoryStartRequest.t)
    : M StoryResponse.t :=
  image_input <- image_input_for_gemini w req ;;
  ai_data <- generate_story_part w (initial_prompt_text req) image_input ;;
  image_prompt <- lift (subscript ai_data "image_prompt") ;;
  generated_image_url <-
    generate_consistent_image w (final_image_prompt w image_prompt)
      None image_input ;;
  text_value <- lift (subscript ai_data "text") ;;
  choices_value <- lift (subscript ai_data "choices") ;;
  choices <- lift (choice_list choices_value) ;;
  main_quest_value <- lift (subscript ai_data "main_quest") ;;
  lift (story_response text_value generated_image_url choices main_quest_value).

Definition next_step (w : world) (req : NextStepRequest.t)
    : M StoryResponse.t :=
  guidance <- lift (narrative_guidance req) ;;
  ai_data <- generate_story_part w (continuation_prompt req guidance) None ;;
  ai_data <-
    (if is_final_step req
     then lift (assign ai_data "choices" (JArr []))
     else ret ai_data) ;;
  image_prompt <- lift (subscript ai_data "image_prompt") ;;
  generated_image_url <-
    generate_consistent_image w (final_image_prompt w image_prompt)
      (NextStepRequest.previous_image_url req) None ;;
  text_value <- lift (subscript ai_data "text") ;;
  choices_value <- lift (subscript ai_data "choices") ;;
  choices <- lift (choice_list choices_value) ;;
  lift (story_response text_value generated_image_url choices
          (JStr (main_quest_line req))).

(** The [/next_step] route: the request model is built, and validated, before
    the handler runs. *)
Definition post_next_step (w : world) (d : NextStepRequest.data)
    : M StoryResponse.t :=
  req <- lift (NextStepRequest.model_validate d) ;;
  next_step w req.

(** The [/start_story] route. *)
Definition post_start_story (w : world) (d : StoryStartRequest.data)
    : M StoryResponse.t :=
  req <- lift (StoryStartRequest.model_validate d) ;;
  start_story w req.

(** The new address and the path it is stored under, for the token drawn in
    a state with [n] tokens used. *)
Definition new_image_url (w : world) (n : nat) : string :=
  BASE_URL w ++ "/images/" ++ uuid4 w n ++ ".png".

Definition new_image_path (w : world) (n : nat) : string :=
  "generated_images/" ++ uuid4 w n ++ ".png".

(** ** Measures on an event log *)

Fixpoint total_delay (evs : list event) : Z :=
  match evs with
  | [] => 0
  | Sleep delay :: rest => delay + total_delay rest
  | _ :: rest => total_delay rest
  end.

Fixpoint image_call_count (evs : list event) : nat :=
  match evs with
  | [] => 0
  | ImageCall _ :: rest => S (image_call_count rest)
  | _ :: rest => image_call_count rest
  end.

(** A [StoryChoice] as the JSON object the generator is asked for. *)
Definition choice_to_json (c : StoryChoice.t) : json :=
  JObj [("id", JStr (StoryChoice.id c)); ("text", JStr (StoryChoice.text c))].

(** ** Worlds and requests to run the model on *)

Definition empty_state : state :=
  {| events := [];
     files := fun p =>
       if String.eqb p "generated_images" then Some Directory else None;
     image_calls := 0; tokens := 0 |}.

(** The image capability fails [failures] times, by an answer without a
    picture or by an error in turn, and then answers with one. *)
Definition flaky_world (failures : nat) : world :=
  {| BASE_URL := "http://127.0.0.1:8000";
     text_model := fun _ => TextRaises (ServiceError "offline");
     image_model := fun n _ =>
       if Nat.ltb n failures then
         (if Nat.even n then ImageParts [None]
          else ImageRaises (ServiceError "busy"))
       else ImageParts [None; Some "PNG"];
     identifies := fun _ => true;
     save_raises := fun _ => false;
     uuid4 := fun n => "token" ++ str_of_int (Z.of_nat n);
     b64decode := fun s => Some s;
     str_of_json := fun _ => "?";
     png_bytes := fun img => img;
     png_opens := fun _ => eq_refl |}.

Definition choice_json (i t : string) : json :=
  JObj [("id", JStr i); ("text", JStr t)].

Definition answer (choices : list json) : json :=
  JObj [("text", JStr "once"); ("image_prompt", JStr "a cat");
        ("choices", JArr choices); ("main_quest", JStr "drifted")].

(** The text capability answers every prompt with [answer choices]; the image
    capability answers at once. *)
Definition story_world (choices : list json) : world :=
  {| BASE_URL := "http://127.0.0.1:8000";
     text_model := fun _ => TextJson (answer choices);
     image_model := fun _ _ => ImageParts [Some "PNG"];
     identifies := fun _ => true;
     save_raises := fun _ => false;
     uuid4 := fun n => "token" ++ str_of_int (Z.of_nat n);
     b64decode := fun s => Some s;
     str_of_json := fun _ => "?";
     png_bytes := fun img => img;
     png_opens := fun _ => eq_refl |}.

Definition two_choices : list json :=
  [choice_json "A" "x"; choice_json "B" "y"].

(** A world whose capabilities give the same reply to every call. *)
Definition world_with (text : text_reply) (picture : image_reply) : world :=
  {| BASE_URL := "http://127.0.0.1:8000";
     text_model := fun _ => text;
     image_model := fun _ _ => picture;
     identifies := fun _ => true;
     save_raises := fun _ => false;
     uuid4 := fun n => "token" ++ str_of_int (Z.of_nat n);
     b64decode := fun s => Some s;
     str_of_json := fun _ => "?";
     png_bytes := fun img => img;
     png_opens := fun _ => eq_refl |}.

(** A world in which no byte string decodes as a picture, but for the one
    file its own encoder writes. *)
Definition blind_world : world :=
  {| BASE_URL := "http://127.0.0.1:8000";
     text_model := fun _ => TextJson (answer two_choices);
     image_model := fun _ _ => ImageParts [Some "PNG"];
     identifies := fun data => String.eqb data "<png>";
     save_raises := fun _ => false;
     uuid4 := fun _ => "token";
     b64decode := fun s => Some s;
     str_of_json := fun _ => "?";
     png_bytes := fun _ => "<png>";
     png_opens := fun _ => eq_refl |}.

(** A fresh state whose image directory holds one file. *)
Definition state_with_file (name : string) (content : bytes) : state :=
  {| events := [];
     files := fun p =>
       if String.eqb p ("generated_images/" ++ name) then Some (File content)
       else if String.eqb p "generated_images" then Some Directory else None;
     image_calls := 0; tokens := 0 |}.

Definition step0 : StoryResponse.t :=
  StoryResponse.mk "t0" (Some "u0")
    [StoryChoice.mk "A" "go left"; StoryChoice.mk "B" "go right"]
    "find the acorn".

(** The state after three attempts, with the two delays between them. *)
Definition after_three_attempts (contents : list part) (st : state) : state :=
  called contents
    (log (Sleep 4) (called contents (log (Sleep 2) (called contents st)))).

(** An event of the orchestrator run on [prompt]: a call to the image
    capability whose contents open with that prompt, a delay or a saved file;
    never a call to the text capability. *)
Definition orchestrator_event (prompt : string) (ev : event) : Prop :=
  match ev with
  | ImageCall contents =>
      exists reference, contents = image_contents prompt reference
  | TextCall _ => False
  | Sleep _ | Saved _ => True
  end.

(** An event that follows the generator's answer [ai_data] in a handler: a
    call to the image capability opens with the consistency rule, one space
    and the answer's image description; no further text call is made. *)
Definition uses_consistency_rule (w : world) (ai_data : json) (ev : event)
    : Prop :=
  match ev with
  | ImageCall contents =>
      exists image_prompt rest,
        subscript ai_data "image_prompt" = Ret image_prompt
        /\ contents
           = TextPart (IMAGE_CONSISTENCY_RULE ++ " " ++ fmt_json w image_prompt)
             :: rest
  | TextCall _ => False
  | Sleep _ | Saved _ => True
  end.

Ltac destruct_matches :=
  repeat match goal with
         | |- context [match ?x with _ => _ end] => destruct x
         end.

(** * Properties *)

(** ** The image generation client *)

Lemma image_attempts_step w contents k attempt st :
  image_attempts w contents (S k) attempt st =
  match attempt_outcome (image_model w (image_calls st) contents) with
  | Ret data => (Ret data, called contents st)
  | Raise e =>
      if attempt <? max_retries - 1
      then image_attempts w contents k (attempt + 1)
             (log (Sleep (initial_delay * 2 ^ attempt)) (called contents st))
      else (Raise e, called contents st)
  end.
Proof.
  cbn [image_attempts]. unfold bind, call_image_model.
  destruct (attempt_outcome _); [reflexivity|].
  destruct (attempt <? max_retries - 1); reflexivity.
Qed.

Lemma first_inline_ret parts :
  (exists data, first_inline parts = Ret data) <->
  (exists data, In (Some data) parts).
Proof.
  induction parts as [|[d|] rest IH]; cbn.
  - split; intros [d H]; [discriminate | contradiction].
  - split; intros _; exists d; auto.
  - rewrite IH. split; intros [d H]; exists d; [auto|].
    destruct H as [H|H]; [discriminate | exact H].
Qed.

Lemma first_inline_none parts :
  (forall p, In p parts -> p = None) -> first_inline parts = Raise no_image_data.
Proof.
  induction parts as [|[d|] rest IH]; cbn; intros H.
  - reflexivity.
  - specialize (H (Some d) (or_introl eq_refl)). discriminate.
  - apply IH. intros p Hp. apply H. now right.
Qed.

Lemma image_calls_called contents st :
  image_calls (called contents st) = S (image_calls st).
Proof. reflexivity. Qed.

Lemma image_calls_log ev st : image_calls (log ev st) = image_calls st.
Proof. reflexivity. Qed.

(** The runs of the client, by the outcome of each attempt. *)
Lemma client_first_try w prompt previous_image st data :
  let contents := image_contents prompt previous_image in
  attempt_outcome (image_model w (image_calls st) contents) = Ret data ->
  _blocking_image_generation w prompt previous_image st
  = (Ret data, called contents st).
Proof.
  intros contents H. unfold _blocking_image_generation.
  change (Z.to_nat max_retries) with 3%nat.
  rewrite image_attempts_step. fold contents. now rewrite H.
Qed.

Lemma client_first_fails w prompt previous_image st e :
  let contents := image_contents prompt previous_image in
  attempt_outcome (image_model w (image_calls st) contents) = Raise e ->
  _blocking_image_generation w prompt previous_image st
  = image_attempts w contents 2 1 (log (Sleep 2) (called contents st)).
Proof.
  intros contents H. unfold _blocking_image_generation.
  change (Z.to_nat max_retries) with 3%nat.
  rewrite image_attempts_step. fold contents. now rewrite H.
Qed.

Lemma client_second_try w prompt previous_image st e data :
  let contents := image_contents prompt previous_image in
  attempt_outcome (image_model w (image_calls st) contents) = Raise e ->
  attempt_outcome (image_model w (S (image_calls st)) contents) = Ret data ->
  _blocking_image_generation w prompt previous_image st
  = (Ret data, called contents (log (Sleep 2) (called contents st))).
Proof.
  intros contents H1 H2. unfold contents.
  rewrite (client_first_fails _ _ _ _ _ H1). fold contents.
  rewrite image_attempts_step, image_calls_log, image_calls_called.
  now rewrite H2.
Qed.

Lemma client_second_fails w prompt previous_image st e1 e2 :
  let contents := image_contents prompt previous_image in
  attempt_outcome (image_model w (image_calls st) contents) = Raise e1 ->
  attempt_outcome (image_model w (S (image_calls st)) contents) = Raise e2 ->
  _blocking_image_generation w prompt previous_image st
  = image_attempts w contents 1 2
      (log (Sleep 4) (called contents (log (Sleep 2) (called contents st)))).
Proof.
  intros contents H1 H2. unfold contents.
  rewrite (client_first_fails _ _ _ _ _ H1). fold contents.
  rewrite image_attempts_step, image_calls_log, image_calls_called.
  now rewrite H2.
Qed.

Lemma client_third_attempt w prompt previous_image st e1 e2 :
  let contents := image_contents prompt previous_image in
  attempt_outcome (image_model w (image_calls st) contents) = Raise e1 ->
  attempt_outcome (image_model w (S (image_calls st)) contents) = Raise e2 ->
  _blocking_image_generation w prompt previous_image st
  = (attempt_outcome (image_model w (S (S (image_calls st))) contents),
     after_three_attempts contents st).
Proof.
  intros contents H1 H2. unfold contents.
  rewrite (client_second_fails _ _ _ _ _ _ H1 H2). fold contents.
  rewrite image_attempts_step.
  rewrite !image_calls_log, !image_calls_called, !image_calls_log,
    image_calls_called.
  destruct (attempt_outcome (image_model w (S (S (image_calls st))) contents));
    reflexivity.
Qed.

Lemma events_after_three_attempts contents st :
  events (after_three_attempts contents st)
  = (events st ++ [ImageCall contents; Sleep 2; ImageCall contents;
                   Sleep 4; ImageCall contents])%list.
Proof. cbn. now rewrite <- !app_assoc. Qed.

Lemma client_returns_a_payload w prompt previous_image st data st' :
  let contents := image_contents prompt previous_image in
  _blocking_image_generation w prompt previous_image st = (Ret data, st') ->
  exists k, (k < 3)%nat /\
    attempt_outcome (image_model w (image_calls st + k) contents) = Ret data.
Proof.
  intros contents H. subst contents.
  set (contents := image_contents prompt previous_image) in *.
  destruct (attempt_outcome (image_model w (image_calls st) contents))
    as [d0|e0] eqn:H0.
  { rewrite (client_first_try _ _ _ _ _ H0) in H.
    exists 0%nat. rewrite Nat.add_0_r. split; [lia|]. congruence. }
  destruct (attempt_outcome (image_model w (S (image_calls st)) contents))
    as [d1|e1] eqn:H1.
  { rewrite (client_second_try _ _ _ _ _ _ H0 H1) in H.
    exists 1%nat. rewrite Nat.add_1_r. split; [lia|]. congruence. }
  rewrite (client_third_attempt _ _ _ _ _ _ H0 H1) in H.
  exists 2%nat.
  replace (image_calls st + 2)%nat with (S (S (image_calls st))) by lia.
  split; [lia|]. injection H as H _. exact H.
Qed.

(** C5. In the image generation client an attempt succeeds exactly when the
    reply holds at least one inline payload; a reply that arrives but holds
    none fails the attempt with the client's own error; the client returns
    data only when some attempt of the three held it; a failed attempt,
    whatever made it fail, is followed by a delay and the next attempt; and
    when all three attempts fail, the error of the third one is raised to the
    caller after exactly three calls. *)
Theorem image_client_payload_or_retry :
  forall (w : world) (prompt : string) (previous_image : option image)
         (st : state),
    let contents := image_contents prompt previous_image in
    let outcome k :=
      attempt_outcome (image_model w (image_calls st + k) contents) in
    (forall parts,
        (exists data, attempt_outcome (ImageParts parts) = Ret data) <->
        (exists data, In (Some data) parts))
    /\ (forall parts,
          (forall p, In p parts -> p = None) ->
          attempt_outcome (ImageParts parts) = Raise no_image_data)
    /\ (forall data st',
          _blocking_image_generation w prompt previous_image st
          = (Ret data, st') ->
          exists k, (k < 3)%nat /\ outcome k = Ret data)
    /\ (forall e data,
          outcome 0%nat = Raise e -> outcome 1%nat = Ret data ->
          exists st',
            _blocking_image_generation w prompt previous_image st
            = (Ret data, st')
            /\ events st'
               = (events st
                  ++ [ImageCall contents; Sleep 2; ImageCall contents])%list)
    /\ (forall e1 e2 e3,
          outcome 0%nat = Raise e1 -> outcome 1%nat = Raise e2 ->
          outcome 2%nat = Raise e3 ->
          exists st',
            _blocking_image_generation w prompt previous_image st
            = (Raise e3, st')
            /\ events st'
               = (events st
                  ++ [ImageCall contents; Sleep 2; ImageCall contents;
                      Sleep 4; ImageCall contents])%list).
Proof.
  intros w prompt previous_image st contents outcome.
  assert (E0 : (image_calls st + 0 = image_calls st)%nat) by lia.
  assert (E1 : (image_calls st + 1 = S (image_calls st))%nat) by lia.
  assert (E2 : (image_calls st + 2 = S (S (image_calls st)))%nat) by lia.
  unfold outcome. rewrite E0, E1, E2. clear E0 E1 E2.
  repeat split.
  - intros H. now apply first_inline_ret.
  - intros H. now apply first_inline_ret.
  - intros parts H. now apply first_inline_none.
  - intros data st' H. now apply client_returns_a_payload in H.
  - intros e data H0 H1. eexists. split.
    + exact (client_second_try _ _ _ _ _ _ H0 H1).
    + cbn. now rewrite <- !app_assoc.
  - intros e1 e2 e3 H0 H1 H2. eexists. split.
    + rewrite (client_third_attempt _ _ _ _ _ _ H0 H1). fold contents.
      now rewrite H2.
    + apply events_after_three_attempts.
Qed.

Lemma image_client_payload_or_retry_witness :
  (exists st',
      _blocking_image_generation (flaky_world 1) "p" None empty_state
      = (Ret "PNG", st')
      /\ events st'
         = [ImageCall [TextPart "p"]; Sleep 2; ImageCall [TextPart "p"]])
  /\ (exists st',
        _blocking_image_generation (flaky_world 3) "p" None empty_state
        = (Raise no_image_data, st')
        /\ events st'
           = [ImageCall [TextPart "p"]; Sleep 2; ImageCall [TextPart "p"];
              Sleep 4; ImageCall [TextPart "p"]]).
Proof.
  split.
  - destruct (image_client_payload_or_retry (flaky_world 1) "p" None empty_state)
      as (_ & _ & _ & H & _).
    apply (H no_image_data "PNG"); reflexivity.
  - destruct (image_client_payload_or_retry (flaky_world 3) "p" None empty_state)
      as (_ & _ & _ & _ & H).
    apply (H no_image_data (ServiceError "busy") no_image_data); reflexivity.
Defined.

(** ** The continuity image orchestrator *)

Lemma previous_image_object_reads w previous_image_url initial_image st :
  snd (previous_image_object w previous_image_url initial_image st) = st.
Proof.
  unfold previous_image_object.
  destruct initial_image; [reflexivity|].
  destruct previous_image_url as [url|]; [|reflexivity].
  destruct (str_truthy url); [|reflexivity].
  cbv zeta.
  generalize ("generated_images/" ++ basename url).
  intros path.
  unfold bind, os_path_exists, image_open_path, image_open_bytes, ret, raise.
  destruct (files st path) as [[|content]|] eqn:E; rewrite ?E;
    try reflexivity.
  destruct (identifies w content); reflexivity.
Qed.

(** What the [try] body does once the client has returned [data] in state
    [st1]: decode, make the directory, draw a token, save. *)
Lemma store_generated w data st1 :
  identifies w data = true ->
  files st1 "generated_images" = Some Directory ->
  save_raises w ("generated_images/" ++ uuid4 w (tokens st1) ++ ".png") = false ->
  exists st',
    (img <- image_open_bytes w data ;;
     os_makedirs "generated_images" ;;;
     token <- uuid_uuid4 w ;;
     image_save w img ("generated_images/" ++ token ++ ".png") ;;;
     ret (BASE_URL w ++ "/images/" ++ token ++ ".png")) st1
    = (Ret (BASE_URL w ++ "/images/" ++ uuid4 w (tokens st1) ++ ".png"), st')
    /\ events st'
       = (events st1
          ++ [Saved ("generated_images/" ++ uuid4 w (tokens st1) ++ ".png")])%list.
Proof.
  intros Hid Hdir Hsave.
  unfold bind, image_open_bytes, os_makedirs, uuid_uuid4, image_save, ret.
  rewrite Hid, Hdir. cbn [tokens]. rewrite Hsave.
  eexists. split; reflexivity.
Qed.

(** The calls and delays of one run of the client: one, two or three calls,
    with a delay of 2 before the second and of 4 before the third. *)
Lemma client_events w prompt previous_image st :
  let contents := image_contents prompt previous_image in
  exists r st',
    _blocking_image_generation w prompt previous_image st = (r, st')
    /\ (events st' = (events st ++ [ImageCall contents])%list
        \/ events st'
           = (events st
              ++ [ImageCall contents; Sleep 2; ImageCall contents])%list
        \/ events st'
           = (events st
              ++ [ImageCall contents; Sleep 2; ImageCall contents;
                  Sleep 4; ImageCall contents])%list).
Proof.
  intros contents.
  destruct (attempt_outcome (image_model w (image_calls st) contents))
    as [d0|e0] eqn:H0.
  { eexists. eexists. split; [exact (client_first_try _ _ _ _ _ H0)|].
    left. reflexivity. }
  destruct (attempt_outcome (image_model w (S (image_calls st)) contents))
    as [d1|e1] eqn:H1.
  { eexists. eexists. split; [exact (client_second_try _ _ _ _ _ _ H0 H1)|].
    right. left. cbn. now rewrite <- !app_assoc. }
  eexists. eexists. split; [exact (client_third_attempt _ _ _ _ _ _ H0 H1)|].
  right. right. apply events_after_three_attempts.
Qed.

(** C4, the run that gives up. With three failing attempts the client sleeps
    2 and then 4 and raises at once after the third failure: no delay of 8
    is ever slept, so the delays before giving up are not 2, 4, 8. *)
Lemma backoff_never_sleeps_eight :
  exists e st',
    _blocking_image_generation (flaky_world 3) "p" None empty_state
    = (Raise e, st')
    /\ events st'
       = [ImageCall [TextPart "p"]; Sleep 2; ImageCall [TextPart "p"];
          Sleep 4; ImageCall [TextPart "p"]]
    /\ ~ In (Sleep 8) (events st').
Proof.
  eexists. eexists. split; [reflexivity|]. split; [reflexivity|].
  cbn. intros H. repeat (destruct H as [H|H]; [discriminate|]). exact H.
Qed.

(** C4, as the code has it. The client makes at most three attempts; a
    delay is slept only between attempts, 2 after the first failure and 4
    after the second, and none follows the third failure. In the run where
    attempts 1 and 2 fail and attempt 3 returns a picture that decodes and
    saves, exactly the delays 2 and 4 occur and the orchestrator returns the
    address of the newly stored picture. *)
Theorem backoff_two_then_four :
  forall (w : world) (prompt : string) (previous_image : option image)
         (st : state),
    let contents := image_contents prompt previous_image in
    let outcome k :=
      attempt_outcome (image_model w (image_calls st + k) contents) in
    (exists r st',
        _blocking_image_generation w prompt previous_image st = (r, st')
        /\ (events st' = (events st ++ [ImageCall contents])%list
            \/ events st'
               = (events st
                  ++ [ImageCall contents; Sleep 2; ImageCall contents])%list
            \/ events st'
               = (events st
                  ++ [ImageCall contents; Sleep 2; ImageCall contents;
                      Sleep 4; ImageCall contents])%list))
    /\ (forall previous_image_url initial_image e1 e2 data,
          previous_image_object w previous_image_url initial_image st
          = (Ret previous_image, st) ->
          outcome 0%nat = Raise e1 -> outcome 1%nat = Raise e2 ->
          outcome 2%nat = Ret data ->
          identifies w data = true ->
          files st "generated_images" = Some Directory ->
          save_raises w ("generated_images/" ++ uuid4 w (tokens st) ++ ".png")
          = false ->
          exists st',
            generate_consistent_image w prompt previous_image_url
              initial_image st
            = (Ret (BASE_URL w ++ "/images/" ++ uuid4 w (tokens st) ++ ".png"),
               st')
            /\ events st'
               = (events st
                  ++ [ImageCall contents; Sleep 2; ImageCall contents;
                      Sleep 4; ImageCall contents;
                      Saved ("generated_images/" ++ uuid4 w (tokens st)
                             ++ ".png")])%list).
Proof.
  intros w prompt previous_image st contents outcome.
  assert (E0 : (image_calls st + 0 = image_calls st)%nat) by lia.
  assert (E1 : (image_calls st + 1 = S (image_calls st))%nat) by lia.
  assert (E2 : (image_calls st + 2 = S (S (image_calls st)))%nat) by lia.
  unfold outcome. rewrite E0, E1, E2. clear E0 E1 E2 outcome.
  split.
  - apply client_events.
  - intros previous_image_url initial_image e1 e2 data Href H0 H1 H2 Hid Hdir Hsave.
    destruct (store_generated w data (after_three_attempts contents st) Hid Hdir Hsave)
      as (st' & Hrun & Hev).
    exists st'. split.
    + unfold generate_consistent_image, try_except, generate_and_store.
      unfold bind at 1. rewrite Href.
      unfold bind at 1. rewrite (client_third_attempt _ _ _ _ _ _ H0 H1).
      fold contents. rewrite H2.
      change (tokens st) with (tokens (after_three_attempts contents st)).
      cbv zeta. rewrite Hrun. reflexivity.
    + rewrite Hev, events_after_three_attempts, <- app_assoc. reflexivity.
Qed.

Lemma backoff_two_then_four_witness :
  exists st',
    generate_consistent_image (flaky_world 2) "p"
      (Some "http://127.0.0.1:8000/images/old.png") None empty_state
    = (Ret "http://127.0.0.1:8000/images/token0.png", st')
    /\ events st'
       = [ImageCall [TextPart "p"]; Sleep 2; ImageCall [TextPart "p"];
          Sleep 4; ImageCall [TextPart "p"];
          Saved "generated_images/token0.png"].
Proof.
  destruct (backoff_two_then_four (flaky_world 2) "p" None empty_state)
    as (_ & H).
  apply (H (Some "http://127.0.0.1:8000/images/old.png") None
           no_image_data (ServiceError "busy") "PNG"); reflexivity.
Defined.


Lemma orchestrator_returns w prompt previous_image_url initial_image st :
  exists url st',
    generate_consistent_image w prompt previous_image_url initial_image st
    = (Ret url, st').
Proof.
  unfold generate_consistent_image, try_except.
  destruct (generate_and_store _ _ _ _ _) as [[url|e] st'].
  - now exists url, st'.
  - now exists (fallback_url previous_image_url), st'.
Qed.



(** ** Request validation *)

Lemma choice_exists_iff d :
  NextStepRequest.choice_exists d = true <->
  exists c, NextStepRequest.raw_choice_id d = Some (Some c).
Proof.
  unfold NextStepRequest.choice_exists, NextStepRequest.present.
  destruct (NextStepRequest.raw_choice_id d) as [[c|]|]; split;
    try discriminate; try (intros [c' H]; discriminate).
  - intros _. now exists c.
  - reflexivity.
Qed.

Lemma str_truthy_iff s : str_truthy s = true <-> s <> EmptyString.
Proof. destruct s; cbn; split; congruence. Qed.

Lemma action_exists_iff d :
  NextStepRequest.action_exists d = true <->
  exists a, NextStepRequest.raw_user_action d = Some (Some a)
            /\ strip a <> EmptyString.
Proof.
  unfold NextStepRequest.action_exists.
  destruct (NextStepRequest.raw_user_action d) as [[a|]|]; split;
    try discriminate; try (intros [a' [H _]]; discriminate).
  - intros H. exists a. split; [reflexivity|]. now apply str_truthy_iff.
  - intros [a' [H Ha]]. injection H as ->. now apply str_truthy_iff.
Qed.

(** C6, two requests that validation lets through. In the first both
    fields are supplied, a choice identifier and a blank action; in the
    second both are supplied with the same value, the empty string, so that
    on any reading that treats the two fields alike either both are given or
    neither is. Neither request is rejected. *)
Lemma validation_treats_the_fields_differently :
  let blank := NextStepRequest.mk_data (Some (Some "Z")) (Some (Some "  "))
                 [step0] None 1 5 in
  let empty := NextStepRequest.mk_data (Some (Some EmptyString))
                 (Some (Some EmptyString)) [step0] None 1 5 in
  (exists req,
      NextStepRequest.model_validate blank = Ret req
      /\ NextStepRequest.choice_id req = Some "Z"
      /\ NextStepRequest.user_action req = Some "  ")
  /\ (exists req,
        NextStepRequest.model_validate empty = Ret req
        /\ NextStepRequest.choice_id req = Some EmptyString
        /\ NextStepRequest.user_action req = NextStepRequest.choice_id req).
Proof.
  cbv zeta. split; eexists; (split; [reflexivity|]); split; reflexivity.
Qed.

(** C6, as the code has it. With "given" as the validator reads it (a choice
    identifier is given when the key is present and not null, even if empty;
    a free-text action is given when it is present, not null and not blank
    after stripping), building the request raises
    a [ValidationError] exactly when not exactly one of the two is given, so
    both when the two are given and when neither is; and then the route
    returns that error with the state untouched: no narrative call and no
    image call has been made. *)
Theorem validation_exactly_one_given :
  forall (d : NextStepRequest.data),
    let choice_given := NextStepRequest.choice_exists d in
    let action_given := NextStepRequest.action_exists d in
    (choice_given = true <->
       exists c, NextStepRequest.raw_choice_id d = Some (Some c))
    /\ (action_given = true <->
          exists a, NextStepRequest.raw_user_action d = Some (Some a)
                    /\ strip a <> EmptyString)
    /\ ((exists msg,
            NextStepRequest.model_validate d = Raise (ValidationError msg))
        <-> xorb choice_given action_given = false)
    /\ ((exists req, NextStepRequest.model_validate d = Ret req)
        <-> xorb choice_given action_given = true)
    /\ (forall (w : world) (st : state) (e : exn),
          NextStepRequest.model_validate d = Raise e ->
          post_next_step w d st = (Raise e, st)).
Proof.
  intros d choice_given action_given.
  split; [apply choice_exists_iff|]. split; [apply action_exists_iff|].
  split; [|split].
  - unfold NextStepRequest.model_validate,
      NextStepRequest.check_choice_or_action.
    fold choice_given action_given.
    destruct choice_given, action_given; cbn; split; intros H;
      try reflexivity; try discriminate;
      try (destruct H; discriminate); eexists; reflexivity.
  - unfold NextStepRequest.model_validate,
      NextStepRequest.check_choice_or_action.
    fold choice_given action_given.
    destruct choice_given, action_given; cbn; split; intros H;
      try reflexivity; try discriminate;
      try (destruct H; discriminate); eexists; reflexivity.
  - intros w st e H. unfold post_next_step, bind, lift. now rewrite H.
Qed.

Lemma validation_exactly_one_given_witness :
  post_next_step (story_world two_choices)
    (NextStepRequest.mk_data (Some (Some "A")) (Some (Some "fly away"))
       [step0] None 1 5)
    empty_state
  = (Raise (ValidationError "不能同时提供 choice_id 和 user_action"), empty_state)
  /\ post_next_step (story_world two_choices)
       (NextStepRequest.mk_data None (Some None) [step0] None 1 5)
       empty_state
     = (Raise (ValidationError "必须提供 choice_id 或 user_action 中的一个"),
        empty_state).
Proof.
  split.
  - apply (proj2 (proj2 (proj2 (proj2 (validation_exactly_one_given _))))).
    reflexivity.
  - apply (proj2 (proj2 (proj2 (proj2 (validation_exactly_one_given _))))).
    reflexivity.
Defined.

(** ** Narrative phase *)

Lemma round_to_53_exact m e :
  Z.abs m < 2 ^ 53 -> round_to_53 m e = {| mant := m; expo := e |}.
Proof.
  intros H. unfold round_to_53. cbv zeta.
  assert (Hbits : Z.log2 (Z.abs m) + 1 <= 53).
  { destruct (Z.eq_dec (Z.abs m) 0) as [E|E].
    - rewrite E. cbn. lia.
    - assert (Z.log2 (Z.abs m) < 53); [|lia].
      apply Z.log2_lt_pow2; lia. }
  apply Z.leb_le in Hbits. now rewrite Hbits.
Qed.

Lemma pow2_51_lt_1024 : 2 ^ 51 < 2 ^ 1024.
Proof. apply Z.pow_lt_mono_r; lia. Qed.

(** Below 2^51 the product with 0.75 is exact. *)
Lemma int_times_three_quarters total :
  0 <= total < 2 ^ 51 ->
  int_times_float total three_quarters
  = Ret {| mant := total * 3; expo := -2 |}.
Proof.
  intros H. unfold int_times_float, float_of_int.
  assert (P51 : 2 ^ 51 = 2251799813685248) by reflexivity.
  assert (P53 : 2 ^ 53 = 9007199254740992) by reflexivity.
  rewrite (round_to_53_exact total 0) by lia.
  cbn [mant expo].
  assert (Hsmall : (2 ^ 1024 <=? Z.abs total * 2 ^ 0) = false).
  { apply Z.leb_gt. pose proof pow2_51_lt_1024. rewrite Z.pow_0_r. lia. }
  rewrite Hsmall. cbn [mant expo three_quarters].
  rewrite round_to_53_exact by lia. reflexivity.
Qed.

Lemma int_ge_three_quarters current total :
  int_ge_float current {| mant := total * 3; expo := -2 |}
  = (3 * total <=? 4 * current).
Proof.
  unfold int_ge_float. cbn [mant expo].
  change (0 <=? -2) with false. change (2 ^ (- -2)) with 4. cbv iota.
  now rewrite (Z.mul_comm total 3), (Z.mul_comm current 4).
Qed.

(** C7, a step count past 2^51. With total_steps = 2^53 - 1 the double
    nearest to 0.75 * total_steps is 6755399441055743, a quarter below the
    exact product; at that current_step, which is below 0.75 * total_steps,
    the code gives the climax guidance and not the developing one. *)
Lemma climax_below_three_quarters :
  let current := 6755399441055743 in
  let total := 9007199254740991 in
  let req := NextStepRequest.mk None (Some "go on") [step0] None current total in
  1 <= current <= total
  /\ 4 * current < 3 * total
  /\ narrative_guidance req = Ret (climax_guidance current total)
  /\ narrative_guidance req
     <> Ret (developing_guidance current total (main_quest_line req)).
Proof.
  cbv zeta. split; [lia|]. split; [lia|].
  assert (H : narrative_guidance
                (NextStepRequest.mk None (Some "go on") [step0] None
                   6755399441055743 9007199254740991)
              = Ret (climax_guidance 6755399441055743 9007199254740991))
    by (vm_compute; reflexivity).
  split; [exact H|].
  rewrite H. intros E. vm_compute in E. discriminate E.
Qed.

(** C7, as the code has it. For 1 <= current_step <= total_steps with
    total_steps below 2^51, where the binary64 product total_steps * 0.75 is
    exact, the guidance is the finale text when current_step = total_steps,
    the climax text when 0.75 * total_steps <= current_step < total_steps,
    and the developing text when current_step < 0.75 * total_steps. *)
Theorem narrative_phase_thresholds :
  forall (req : NextStepRequest.t),
    let current := NextStepRequest.current_step req in
    let total := NextStepRequest.total_steps req in
    1 <= current <= total ->
    total < 2 ^ 51 ->
    (current = total ->
     narrative_guidance req = Ret (finale_guidance (main_quest_line req)))
    /\ (3 * total <= 4 * current -> current < total ->
        narrative_guidance req = Ret (climax_guidance current total))
    /\ (4 * current < 3 * total ->
        narrative_guidance req
        = Ret (developing_guidance current total (main_quest_line req))).
Proof.
  intros req current total Hrange Hbound.
  unfold narrative_guidance, is_final_step. fold current total.
  repeat split.
  - intros E. apply Z.eqb_eq in E. now rewrite E.
  - intros Hge Hlt.
    assert (E : (current =? total) = false) by (apply Z.eqb_neq; lia).
    rewrite E, int_times_three_quarters by lia.
    rewrite int_ge_three_quarters.
    apply Z.leb_le in Hge. now rewrite Hge.
  - intros Hlt.
    assert (E : (current =? total) = false) by (apply Z.eqb_neq; lia).
    rewrite E, int_times_three_quarters by lia.
    rewrite int_ge_three_quarters.
    assert (F : (3 * total <=? 4 * current) = false) by (apply Z.leb_gt; lia).
    now rewrite F.
Qed.

Lemma narrative_phase_thresholds_witness :
  narrative_guidance (NextStepRequest.mk (Some "A") None [step0] None 5 5)
  = Ret (finale_guidance "find the acorn")
  /\ narrative_guidance (NextStepRequest.mk (Some "A") None [step0] None 3 4)
     = Ret (climax_guidance 3 4)
  /\ narrative_guidance (NextStepRequest.mk (Some "A") None [step0] None 1 5)
     = Ret (developing_guidance 1 5 "find the acorn").
Proof.
  assert (B : 5 < 2 ^ 51) by reflexivity.
  assert (B4 : 4 < 2 ^ 51) by reflexivity.
  split; [|split].
  - apply (narrative_phase_thresholds
             (NextStepRequest.mk (Some "A") None [step0] None 5 5));
      cbn; try lia; reflexivity.
  - apply (narrative_phase_thresholds
             (NextStepRequest.mk (Some "A") None [step0] None 3 4));
      cbn; try lia; reflexivity.
  - apply (narrative_phase_thresholds
             (NextStepRequest.mk (Some "A") None [step0] None 1 5));
      cbn; try lia; reflexivity.
Defined.

(** ** The advance handler *)

Lemma dict_get_set_other d key key' v :
  String.eqb key key' = false ->
  dict_get (dict_set d key v) key' = dict_get d key'.
Proof. intros H. cbn. now rewrite H. Qed.

Lemma dict_get_set_same d key v : dict_get (dict_set d key v) key = Some v.
Proof. cbn. now rewrite String.eqb_refl. Qed.

Lemma subscript_obj d key v :
  dict_get d key = Some v -> subscript (JObj d) key = Ret v.
Proof. intros H. unfold subscript. now rewrite H. Qed.

Lemma subscript_ret ai key v :
  subscript ai key = Ret v ->
  exists d, ai = JObj d /\ dict_get d key = Some v.
Proof.
  unfold subscript. destruct ai; try discriminate.
  destruct (dict_get fields key) eqn:E; [|discriminate].
  intros H. injection H as ->. now exists fields.
Qed.

Lemma story_response_ret tv url cs quest step :
  story_response tv url cs (JStr quest) = Ret step ->
  exists t, tv = JStr t /\ step = StoryResponse.mk t (Some url) cs quest.
Proof.
  unfold story_response, str_field. destruct tv; try discriminate.
  intros H. injection H as <-. now exists s.
Qed.

(** What a returned step is made of. *)
Lemma next_step_returns w req st step st' :
  next_step w req st = (Ret step, st') ->
  exists g d t url cs,
    narrative_guidance req = Ret g
    /\ text_model w [TextPart (continuation_prompt req g)] = TextJson (JObj d)
    /\ dict_get d "text" = Some (JStr t)
    /\ (if is_final_step req then cs = []
        else exists cv, dict_get d "choices" = Some cv
                        /\ choice_list cv = Ret cs)
    /\ step = StoryResponse.mk t (Some url) cs (main_quest_line req).
Proof.
  unfold next_step, generate_story_part, call_text_model, text_contents.
  unfold bind, lift, ret, raise.
  intros H.
  destruct (narrative_guidance req) as [g|e]; [|discriminate H].
  destruct (text_model w [TextPart (continuation_prompt req g)])
    as [e|raw|ai] eqn:Etext.
  { destruct e; cbv beta iota in H; discriminate H. }
  { cbv beta iota in H. discriminate H. }
  cbv beta iota in H.
  destruct (is_final_step req) eqn:Efinal.
  - unfold assign in H. destruct ai as [| | | | | |d]; try discriminate H.
    destruct (subscript (JObj (dict_set d "choices" (JArr []))) "image_prompt")
      as [ip|e] eqn:Eip; [|discriminate H].
    destruct (generate_consistent_image w _ _ None _) as [[url|e] st2];
      [|discriminate H].
    destruct (subscript (JObj (dict_set d "choices" (JArr []))) "text")
      as [tv|e] eqn:Etv; [|discriminate H].
    cbn in H.
    apply subscript_ret in Etv. destruct Etv as (d' & Ed' & Etv).
    injection Ed' as <-. cbn in Etv.
    destruct (story_response tv url [] (JStr (main_quest_line req)))
      as [step'|e] eqn:Estep; [|discriminate H].
    apply story_response_ret in Estep. destruct Estep as (t & -> & ->).
    injection H as <- <-.
    exists g, d, t, url, []. repeat split; auto.
  - destruct (subscript ai "image_prompt") as [ip|e] eqn:Eip; [|discriminate H].
    destruct (generate_consistent_image w _ _ None _) as [[url|e] st2];
      [|discriminate H].
    destruct (subscript ai "text") as [tv|e] eqn:Etv; [|discriminate H].
    destruct (subscript ai "choices") as [cv|e] eqn:Ecv; [|discriminate H].
    destruct (choice_list cv) as [cs|e] eqn:Ecs; [|discriminate H].
    destruct (story_response tv url cs (JStr (main_quest_line req)))
      as [step'|e] eqn:Estep; [|discriminate H].
    apply story_response_ret in Estep. destruct Estep as (t & -> & ->).
    apply subscript_ret in Etv. destruct Etv as (d & -> & Etv).
    apply subscript_ret in Ecv. destruct Ecv as (d' & Ed' & Ecv).
    injection Ed' as <-.
    injection H as <- <-.
    exists g, d, t, url, cs. repeat split; auto. now exists cv.
Qed.

(** When the generator's answer is well formed a step is returned. *)
Lemma next_step_runs w req st g d t ip cs :
  narrative_guidance req = Ret g ->
  text_model w [TextPart (continuation_prompt req g)] = TextJson (JObj d) ->
  dict_get d "text" = Some (JStr t) ->
  dict_get d "image_prompt" = Some ip ->
  (if is_final_step req then cs = []
   else exists cv, dict_get d "choices" = Some cv /\ choice_list cv = Ret cs) ->
  exists url st',
    next_step w req st
    = (Ret (StoryResponse.mk t (Some url) cs (main_quest_line req)), st').
Proof.
  intros Hg Htext Ht Hip Hcs.
  unfold next_step, generate_story_part, call_text_model, text_contents.
  unfold bind, lift, ret, raise.
  rewrite Hg, Htext.
  destruct (orchestrator_returns w (final_image_prompt w ip)
              (NextStepRequest.previous_image_url req) None
              (log (TextCall [TextPart (continuation_prompt req g)]) st))
    as (url & st2 & Hrun).
  exists url, st2.
  cbv beta iota.
  destruct (is_final_step req).
  - subst cs. unfold assign. cbv beta iota.
    rewrite (subscript_obj _ "image_prompt" ip)
      by (rewrite dict_get_set_other by reflexivity; exact Hip).
    rewrite Hrun.
    rewrite (subscript_obj _ "text" (JStr t))
      by (rewrite dict_get_set_other by reflexivity; exact Ht).
    rewrite (subscript_obj _ "choices" (JArr []))
      by apply dict_get_set_same.
    reflexivity.
  - destruct Hcs as (cv & Hcv & Hlist).
    rewrite (subscript_obj _ _ _ Hip), Hrun, (subscript_obj _ _ _ Ht),
      (subscript_obj _ _ _ Hcv), Hlist.
    reflexivity.
Qed.

(** ** Events of a request *)

Lemma orchestrator_events w prompt previous_image_url initial_image st :
  exists r st' new,
    generate_consistent_image w prompt previous_image_url initial_image st
    = (r, st')
    /\ events st' = (events st ++ new)%list
    /\ Forall (orchestrator_event prompt) new.
Proof.
  unfold generate_consistent_image, try_except, generate_and_store.
  unfold bind at 1.
  pose proof (previous_image_object_reads w previous_image_url initial_image st)
    as Hread.
  destruct (previous_image_object w previous_image_url initial_image st)
    as [[reference|e] st1]; cbn in Hread; subst st1.
  2:{ eexists. eexists. exists []. split; [reflexivity|].
      split; [now rewrite app_nil_r | constructor]. }
  unfold bind at 1.
  destruct (client_events w prompt reference st) as (r & st2 & Hrun & Hshape).
  rewrite Hrun.
  assert (Hclient : exists new, events st2 = (events st ++ new)%list
                                /\ Forall (orchestrator_event prompt) new).
  { destruct Hshape as [H|[H|H]]; eexists; (split; [exact H|]);
      repeat constructor; cbn; now exists reference. }
  destruct Hclient as (new & Hnew & Hall).
  destruct r as [data|e].
  2:{ eexists. eexists. exists new. split; [reflexivity|]. now split. }
  unfold bind, image_open_bytes, os_makedirs, uuid_uuid4, image_save, ret, raise.
  destruct (identifies w data).
  2:{ eexists. eexists. exists new. split; [reflexivity|]. now split. }
  destruct (files st2 "generated_images") as [[|content]|] eqn:Edir;
    cbn [tokens];
    try (destruct (save_raises w _));
    eexists; eexists;
    try (exists new; split; [reflexivity|]; now split);
    (eexists; split; [reflexivity|]; cbn [events]; rewrite Hnew, <- app_assoc;
     split; [reflexivity|]; apply Forall_app; split; [exact Hall|];
     repeat constructor).
Qed.

Lemma orchestrator_event_uses_rule w ai_data image_prompt ev :
  subscript ai_data "image_prompt" = Ret image_prompt ->
  orchestrator_event (final_image_prompt w image_prompt) ev ->
  uses_consistency_rule w ai_data ev.
Proof.
  intros Hip. destruct ev; cbn; auto.
  intros [reference ->]. exists image_prompt. eexists. split; [exact Hip|].
  reflexivity.
Qed.

(** After the generator has answered [ai_data] (with [ai_data'] the answer
    once the final step has cleared its choices), the rest of a handler adds
    only orchestrator events. *)
Lemma after_the_answer w ai_data ai_data' previous_image_url initial_image
    (finish : string -> M StoryResponse.t) st1 :
  (forall image_prompt,
      subscript ai_data' "image_prompt" = Ret image_prompt ->
      subscript ai_data "image_prompt" = Ret image_prompt) ->
  (forall url st2, snd (finish url st2) = st2) ->
  exists r st' later,
    (image_prompt <- lift (subscript ai_data' "image_prompt") ;;
     generated_image_url <-
       generate_consistent_image w (final_image_prompt w image_prompt)
         previous_image_url initial_image ;;
     finish generated_image_url) st1 = (r, st')
    /\ events st' = (events st1 ++ later)%list
    /\ Forall (uses_consistency_rule w ai_data) later.
Proof.
  intros Hsame Hfinish. unfold bind at 1. unfold lift.
  destruct (subscript ai_data' "image_prompt") as [image_prompt|e] eqn:Hip.
  2:{ eexists. eexists. exists []. split; [reflexivity|].
      split; [now rewrite app_nil_r | constructor]. }
  specialize (Hsame image_prompt eq_refl). clear Hip. rename Hsame into Hip.
  destruct (orchestrator_events w (final_image_prompt w image_prompt)
              previous_image_url initial_image st1)
    as (r & st2 & new & Hrun & Hev & Hall).
  unfold bind. rewrite Hrun.
  assert (Hrule : Forall (uses_consistency_rule w ai_data) new).
  { eapply Forall_impl; [|exact Hall].
    intros ev. now apply orchestrator_event_uses_rule. }
  destruct r as [url|e].
  - specialize (Hfinish url st2).
    destruct (finish url st2) as [r' st3]. cbn in Hfinish. subst st3.
    exists r', st2, new. now repeat split.
  - exists (Raise e), st2, new. now repeat split.
Qed.

Lemma next_step_finish_reads ai_data quest url st2 :
  snd ((text_value <- lift (subscript ai_data "text") ;;
        choices_value <- lift (subscript ai_data "choices") ;;
        choices <- lift (choice_list choices_value) ;;
        lift (story_response text_value url choices (JStr quest))) st2)
  = st2.
Proof. unfold bind, lift. destruct_matches; reflexivity. Qed.

Lemma next_step_events w req st :
  exists r st' new,
    next_step w req st = (r, st')
    /\ events st' = (events st ++ new)%list
    /\ match narrative_guidance req with
       | Raise _ => new = []
       | Ret g =>
           exists later,
             new = TextCall [TextPart (continuation_prompt req g)] :: later
             /\ (later = []
                 \/ exists ai_data,
                      text_model w [TextPart (continuation_prompt req g)]
                      = TextJson ai_data
                      /\ Forall (uses_consistency_rule w ai_data) later)
       end.
Proof.
  unfold next_step. unfold bind at 1. unfold lift at 1.
  destruct (narrative_guidance req) as [g|e].
  2:{ eexists. eexists. exists []. split; [reflexivity|].
      split; [now rewrite app_nil_r | reflexivity]. }
  unfold bind at 1.
  unfold generate_story_part, call_text_model, text_contents.
  unfold bind at 1.
  set (st1 := log (TextCall [TextPart (continuation_prompt req g)]) st).
  assert (Hst1 : forall later,
             (events st1 ++ later)%list
             = (events st
                ++ TextCall [TextPart (continuation_prompt req g)] :: later)%list).
  { intros later. cbn. now rewrite <- app_assoc. }
  assert (Hfail : forall e : exn,
             exists r st' new,
               (Raise e : result StoryResponse.t, st1) = (r, st')
               /\ events st' = (events st ++ new)%list
               /\ exists later,
                    new = TextCall [TextPart (continuation_prompt req g)] :: later
                    /\ (later = []
                        \/ exists ai_data,
                             text_model w [TextPart (continuation_prompt req g)]
                             = TextJson ai_data
                             /\ Forall (uses_consistency_rule w ai_data) later)).
  { intros e. eexists. eexists. eexists. split; [reflexivity|].
    split; [rewrite <- (app_nil_r (events st1)); apply Hst1|].
    exists []. split; [reflexivity|]. now left. }
  destruct (text_model w [TextPart (continuation_prompt req g)])
    as [e|raw|ai_data] eqn:Etext.
  { destruct e; apply Hfail. }
  { apply Hfail. }
  cbv beta iota. unfold ret at 1. cbv beta iota.
  unfold bind at 1.
  destruct (is_final_step req).
  - unfold lift at 1, assign.
    destruct ai_data as [| | | | | |d]; try apply Hfail.
    destruct (after_the_answer w (JObj d) (JObj (dict_set d "choices" (JArr [])))
                (NextStepRequest.previous_image_url req) None
                (fun url =>
                   text_value <- lift (subscript (JObj (dict_set d "choices" (JArr []))) "text") ;;
                   choices_value <- lift (subscript (JObj (dict_set d "choices" (JArr []))) "choices") ;;
                   choices <- lift (choice_list choices_value) ;;
                   lift (story_response text_value url choices
                           (JStr (main_quest_line req))))
                st1)
      as (r & st' & later & Hrun & Hev & Hall).
    { intros image_prompt. unfold subscript.
      now rewrite dict_get_set_other by reflexivity. }
    { intros url st2. apply next_step_finish_reads. }
    exists r, st'. eexists. split; [exact Hrun|].
    split; [rewrite Hev; apply Hst1|].
    exists later. split; [reflexivity|]. right. now exists (JObj d).
  - unfold ret at 1.
    destruct (after_the_answer w ai_data ai_data
                (NextStepRequest.previous_image_url req) None
                (fun url =>
                   text_value <- lift (subscript ai_data "text") ;;
                   choices_value <- lift (subscript ai_data "choices") ;;
                   choices <- lift (choice_list choices_value) ;;
                   lift (story_response text_value url choices
                           (JStr (main_quest_line req))))
                st1)
      as (r & st' & later & Hrun & Hev & Hall).
    { auto. }
    { intros url st2. apply next_step_finish_reads. }
    exists r, st'. eexists. split; [exact Hrun|].
    split; [rewrite Hev; apply Hst1|].
    exists later. split; [reflexivity|]. right. now exists ai_data.
Qed.

(** ** The start handler *)

Lemma story_response_any tv url cs qv step :
  story_response tv url cs qv = Ret step ->
  exists t q, tv = JStr t /\ qv = JStr q
              /\ step = StoryResponse.mk t (Some url) cs q.
Proof.
  unfold story_response, str_field.
  destruct tv; try discriminate. destruct qv; try discriminate.
  intros H. injection H as <-. eexists. eexists. repeat split.
Qed.

Lemma image_input_reads w req st :
  snd (image_input_for_gemini w req st) = st.
Proof.
  unfold image_input_for_gemini.
  destruct (StoryStartRequest.image_data_url req) as [url|]; [|reflexivity].
  destruct (str_truthy url); [|reflexivity].
  unfold bind, decode_base64_to_image, image_open_bytes, ret, raise.
  destruct (b64decode w _) as [data|]; [|reflexivity].
  destruct (identifies w data); reflexivity.
Qed.

Lemma start_story_returns w req st step st' :
  start_story w req st = (Ret step, st') ->
  exists image_input d t cv cs q url,
    text_model w (text_contents (initial_prompt_text req) image_input)
    = TextJson (JObj d)
    /\ dict_get d "text" = Some (JStr t)
    /\ dict_get d "choices" = Some cv
    /\ choice_list cv = Ret cs
    /\ dict_get d "main_quest" = Some (JStr q)
    /\ step = StoryResponse.mk t (Some url) cs q.
Proof.
  unfold start_story.
  unfold bind at 1.
  pose proof (image_input_reads w req st) as Hread.
  destruct (image_input_for_gemini w req st) as [[image_input|e] st0];
    [|discriminate]. cbn in Hread. subst st0.
  unfold generate_story_part, call_text_model.
  unfold bind, lift, ret, raise.
  intros H.
  destruct (text_model w (text_contents (initial_prompt_text req) image_input))
    as [e|raw|ai] eqn:Etext.
  { destruct e; cbv beta iota in H; discriminate H. }
  { cbv beta iota in H. discriminate H. }
  cbv beta iota in H.
  destruct (subscript ai "image_prompt") as [ip|e] eqn:Eip; [|discriminate H].
  destruct (generate_consistent_image w _ None image_input _) as [[url|e] st2];
    [|discriminate H].
  destruct (subscript ai "text") as [tv|e] eqn:Etv; [|discriminate H].
  destruct (subscript ai "choices") as [cv|e] eqn:Ecv; [|discriminate H].
  destruct (choice_list cv) as [cs|e] eqn:Ecs; [|discriminate H].
  destruct (subscript ai "main_quest") as [qv|e] eqn:Eqv; [|discriminate H].
  destruct (story_response tv url cs qv) as [step'|e] eqn:Estep;
    [|discriminate H].
  apply story_response_any in Estep. destruct Estep as (t & q & -> & -> & ->).
  apply subscript_ret in Etv. destruct Etv as (d & -> & Etv).
  apply subscript_ret in Ecv. destruct Ecv as (d1 & Ed1 & Ecv).
  injection Ed1 as <-.
  apply subscript_ret in Eqv. destruct Eqv as (d2 & Ed2 & Eqv).
  injection Ed2 as <-.
  injection H as <- <-.
  exists image_input, d, t, cv, cs, q, url. repeat split; auto.
Qed.

Lemma start_story_finish_reads ai_data url st2 :
  snd ((text_value <- lift (subscript ai_data "text") ;;
        choices_value <- lift (subscript ai_data "choices") ;;
        choices <- lift (choice_list choices_value) ;;
        main_quest_value <- lift (subscript ai_data "main_quest") ;;
        lift (story_response text_value url choices main_quest_value)) st2)
  = st2.
Proof. unfold bind, lift. destruct_matches; reflexivity. Qed.

Lemma start_story_events w req st :
  exists r st' new,
    start_story w req st = (r, st')
    /\ events st' = (events st ++ new)%list
    /\ (new = []
        \/ exists image_input later,
             new = TextCall (text_contents (initial_prompt_text req) image_input)
                   :: later
             /\ (later = []
                 \/ exists ai_data,
                      text_model w
                        (text_contents (initial_prompt_text req) image_input)
                      = TextJson ai_data
                      /\ Forall (uses_consistency_rule w ai_data) later)).
Proof.
  unfold start_story.
  unfold bind at 1.
  pose proof (image_input_reads w req st) as Hread.
  destruct (image_input_for_gemini w req st) as [[image_input|e] st0];
    cbn in Hread; subst st0.
  2:{ eexists. eexists. exists []. split; [reflexivity|].
      split; [now rewrite app_nil_r | now left]. }
  unfold bind at 1.
  unfold generate_story_part, call_text_model.
  unfold bind at 1.
  set (contents := text_contents (initial_prompt_text req) image_input).
  set (st1 := log (TextCall contents) st).
  assert (Hst1 : forall later,
             (events st1 ++ later)%list
             = (events st ++ TextCall contents :: later)%list).
  { intros later. cbn. now rewrite <- app_assoc. }
  assert (Hfail : forall e : exn,
             exists r st' new,
               (Raise e : result StoryResponse.t, st1) = (r, st')
               /\ events st' = (events st ++ new)%list
               /\ (new = []
                   \/ exists image_input' later,
                        new = TextCall
                                (text_contents (initial_prompt_text req)
                                   image_input') :: later
                        /\ (later = []
                            \/ exists ai_data,
                                 text_model w
                                   (text_contents (initial_prompt_text req)
                                      image_input')
                                 = TextJson ai_data
                                 /\ Forall (uses_consistency_rule w ai_data)
                                      later))).
  { intros e. eexists. eexists. eexists. split; [reflexivity|].
    split; [rewrite <- (app_nil_r (events st1)); apply Hst1|].
    right. exists image_input, []. split; [reflexivity|]. now left. }
  destruct (text_model w contents) as [e|raw|ai_data] eqn:Etext.
  { destruct e; apply Hfail. }
  { apply Hfail. }
  cbv beta iota. unfold ret at 1. cbv beta iota.
  destruct (after_the_answer w ai_data ai_data None image_input
              (fun url =>
                 text_value <- lift (subscript ai_data "text") ;;
                 choices_value <- lift (subscript ai_data "choices") ;;
                 choices <- lift (choice_list choices_value) ;;
                 main_quest_value <- lift (subscript ai_data "main_quest") ;;
                 lift (story_response text_value url choices main_quest_value))
              st1)
    as (r & st' & later & Hrun & Hev & Hall).
  { auto. }
  { intros url st2. apply start_story_finish_reads. }
  exists r, st'. eexists. split; [exact Hrun|].
  split; [rewrite Hev; apply Hst1|].
  right. exists image_input, later. split; [reflexivity|].
  right. now exists ai_data.
Qed.

(** ** Choices and main quest of the returned step *)

(** C2, a step that is not the last and has no choices. When the generator
    returns an empty choice list at step 1 of 5, the step returned has no
    choices either: the list is empty although the step is not final. *)
Lemma empty_choices_before_the_end :
  let req := NextStepRequest.mk (Some "A") None [step0] None 1 5 in
  exists step st',
    next_step (story_world []) req empty_state = (Ret step, st')
    /\ StoryResponse.choices step = []
    /\ NextStepRequest.current_step req <> NextStepRequest.total_steps req.
Proof.
  cbv zeta. eexists. eexists. split; [vm_compute; reflexivity|].
  split; [reflexivity|]. cbn. discriminate.
Qed.

Lemma is_final_step_iff req :
  is_final_step req = true <->
  NextStepRequest.current_step req = NextStepRequest.total_steps req.
Proof. unfold is_final_step. apply Z.eqb_eq. Qed.

(** C2, as the code has it. On an advance call with current_step =
    total_steps every returned step has an empty choice list, whatever the
    generator answered, and a step is returned as soon as the answer is an
    object with a string "text" and an "image_prompt". On any other advance
    call, and on start, the returned choice list is the generator's list,
    converted entry by entry and not filtered, so it is empty whenever the
    generator returns no choices. *)
Theorem choices_cleared_on_the_final_step :
  forall (w : world),
    (forall req st step st',
        NextStepRequest.current_step req = NextStepRequest.total_steps req ->
        next_step w req st = (Ret step, st') ->
        StoryResponse.choices step = [])
    /\ (forall req st g d t ip,
          NextStepRequest.current_step req = NextStepRequest.total_steps req ->
          narrative_guidance req = Ret g ->
          text_model w [TextPart (continuation_prompt req g)]
          = TextJson (JObj d) ->
          dict_get d "text" = Some (JStr t) ->
          dict_get d "image_prompt" = Some ip ->
          exists url st',
            next_step w req st
            = (Ret (StoryResponse.mk t (Some url) [] (main_quest_line req)),
               st'))
    /\ (forall req st step st',
          NextStepRequest.current_step req <> NextStepRequest.total_steps req ->
          next_step w req st = (Ret step, st') ->
          exists g d cv,
            narrative_guidance req = Ret g
            /\ text_model w [TextPart (continuation_prompt req g)]
               = TextJson (JObj d)
            /\ dict_get d "choices" = Some cv
            /\ choice_list cv = Ret (StoryResponse.choices step))
    /\ (forall req st step st',
          start_story w req st = (Ret step, st') ->
          exists image_input d cv,
            text_model w (text_contents (initial_prompt_text req) image_input)
            = TextJson (JObj d)
            /\ dict_get d "choices" = Some cv
            /\ choice_list cv = Ret (StoryResponse.choices step)).
Proof.
  intros w. repeat split.
  - intros req st step st' Hfinal Hrun.
    apply is_final_step_iff in Hfinal.
    apply next_step_returns in Hrun.
    destruct Hrun as (g & d & t & url & cs & _ & _ & _ & Hcs & ->).
    rewrite Hfinal in Hcs. now subst cs.
  - intros req st g d t ip Hfinal Hg Htext Ht Hip.
    apply is_final_step_iff in Hfinal.
    apply (next_step_runs w req st g d t ip []); auto.
    now rewrite Hfinal.
  - intros req st step st' Hnot Hrun.
    apply next_step_returns in Hrun.
    destruct Hrun as (g & d & t & url & cs & Hg & Htext & _ & Hcs & ->).
    destruct (is_final_step req) eqn:E.
    + apply is_final_step_iff in E. contradiction.
    + destruct Hcs as (cv & Hcv & Hlist). now exists g, d, cv.
  - intros req st step st' Hrun.
    apply start_story_returns in Hrun.
    destruct Hrun as (img & d & t & cv & cs & q & url & Htext & _ & Hcv & Hcs
                      & _ & ->).
    now exists img, d, cv.
Qed.

Lemma choices_cleared_on_the_final_step_witness :
  (exists url st',
      next_step (story_world two_choices)
        (NextStepRequest.mk (Some "B") None [step0] None 5 5) empty_state
      = (Ret (StoryResponse.mk "once" (Some url) [] "find the acorn"), st'))
  /\ (exists step st',
        next_step (story_world two_choices)
          (NextStepRequest.mk (Some "B") None [step0] None 5 5) empty_state
        = (Ret step, st')
        /\ StoryResponse.choices step = []).
Proof.
  destruct (choices_cleared_on_the_final_step (story_world two_choices))
    as (H1 & H2 & _).
  split.
  - eapply (H2 (NextStepRequest.mk (Some "B") None [step0] None 5 5)
              empty_state _ _ "once" (JStr "a cat")); reflexivity.
  - eexists. eexists. split; [reflexivity|].
    eapply (H1 (NextStepRequest.mk (Some "B") None [step0] None 5 5)
              empty_state); reflexivity.
Defined.

(** C3. On an advance call with a non-empty history, every returned step
    carries the main quest of the first step of the history, whatever the
    generator's answer says under "main_quest" (or whether it has that key at
    all); and a step is returned whenever the answer is an object with a
    string "text", an "image_prompt" and, off the final step, a well-formed
    choice list. *)
Theorem main_quest_is_the_first_steps :
  forall (w : world) (req : NextStepRequest.t) (st : state)
         (first : StoryResponse.t) (rest : list StoryResponse.t),
    NextStepRequest.story_history req = first :: rest ->
    (forall step st',
        next_step w req st = (Ret step, st') ->
        StoryResponse.main_quest step = StoryResponse.main_quest first)
    /\ (forall g d t ip cs,
          narrative_guidance req = Ret g ->
          text_model w [TextPart (continuation_prompt req g)]
          = TextJson (JObj d) ->
          dict_get d "text" = Some (JStr t) ->
          dict_get d "image_prompt" = Some ip ->
          (if is_final_step req then cs = []
           else exists cv, dict_get d "choices" = Some cv
                           /\ choice_list cv = Ret cs) ->
          exists url st',
            next_step w req st
            = (Ret (StoryResponse.mk t (Some url) cs
                      (StoryResponse.main_quest first)), st')).
Proof.
  intros w req st first rest Hhist.
  assert (Hquest : main_quest_line req = StoryResponse.main_quest first).
  { unfold main_quest_line. now rewrite Hhist. }
  split.
  - intros step st' Hrun. apply next_step_returns in Hrun.
    destruct Hrun as (g & d & t & url & cs & _ & _ & _ & _ & ->).
    exact Hquest.
  - intros g d t ip cs Hg Htext Ht Hip Hcs. rewrite <- Hquest.
    now apply (next_step_runs w req st g d t ip cs).
Qed.

Lemma main_quest_is_the_first_steps_witness :
  dict_get [("text", JStr "once"); ("image_prompt", JStr "a cat");
            ("choices", JArr two_choices); ("main_quest", JStr "drifted")]
    "main_quest" = Some (JStr "drifted")
  /\ exists url st',
      next_step (story_world two_choices)
        (NextStepRequest.mk (Some "B") None [step0] None 1 5) empty_state
      = (Ret (StoryResponse.mk "once" (Some url)
                [StoryChoice.mk "A" "x"; StoryChoice.mk "B" "y"]
                "find the acorn"), st').
Proof.
  split; [reflexivity|].
  destruct (main_quest_is_the_first_steps (story_world two_choices)
              (NextStepRequest.mk (Some "B") None [step0] None 1 5)
              empty_state step0 [] eq_refl) as (_ & H).
  eapply (H _ _ "once" (JStr "a cat")).
  - vm_compute. reflexivity.
  - reflexivity.
  - reflexivity.
  - reflexivity.
  - cbn. exists (JArr two_choices). split; reflexivity.
Defined.

(** ** The player's action *)

Lemma find_none_unmatched c choices :
  (forall choice, In choice choices -> StoryChoice.id choice <> c) ->
  find (fun choice => String.eqb (StoryChoice.id choice) c) choices = None.
Proof.
  induction choices as [|choice rest IH]; intros H; [reflexivity|].
  cbn. destruct (String.eqb_spec (StoryChoice.id choice) c) as [E|E].
  - exfalso. apply (H choice); [now left | exact E].
  - apply IH. intros choice' Hin. apply H. now right.
Qed.

Lemma continuation_prompt_action req guidance line :
  action_description_line req = line ->
  continuation_prompt req guidance
  = story_context req ++ nl ++ line ++ nl ++ nl
    ++ "--- 核心任务指令 (最重要！) ---" ++ nl
    ++ "请始终围绕故事主线：“" ++ main_quest_line req ++ "”。" ++ nl
    ++ "--- 当前阶段叙事指令 ---" ++ nl
    ++ guidance.
Proof. intros <-. reflexivity. Qed.

Lemma next_step_reaches_the_generator w req st g :
  narrative_guidance req = Ret g ->
  exists r st' later,
    next_step w req st = (r, st')
    /\ events st'
       = (events st
          ++ TextCall [TextPart (continuation_prompt req g)] :: later)%list.
Proof.
  intros Hg.
  destruct (next_step_events w req st) as (r & st' & new & Hrun & Hev & Hnew).
  rewrite Hg in Hnew. destruct Hnew as (later & -> & _).
  now exists r, st', later.
Qed.

(** C8, a request that validation accepts as a choice. With choice_id "Z",
    which is none of the previous step's ids, and a blank user_action, the
    validator sees a choice and no action and lets the request through; the
    handler then takes the blank action for the player's action and never
    resolves the choice, so the action is not described by the generic
    phrase. With an empty choice_id and no action the request passes as well
    and the handler describes no action at all. *)
Lemma blank_action_overrides_the_choice :
  let d := NextStepRequest.mk_data (Some (Some "Z")) (Some (Some "  "))
             [step0] None 1 5 in
  let d' := NextStepRequest.mk_data (Some (Some EmptyString)) None
              [step0] None 1 5 in
  (exists req,
      NextStepRequest.model_validate d = Ret req
      /\ NextStepRequest.choice_id req = Some "Z"
      /\ (forall choice,
            In choice (StoryResponse.choices step0) ->
            StoryChoice.id choice <> "Z")
      /\ action_description_line req = custom_action_line "  "
      /\ action_description_line req
         <> chosen_option_line default_choice_text)
  /\ (exists req',
        NextStepRequest.model_validate d' = Ret req'
        /\ NextStepRequest.choice_id req' = Some EmptyString
        /\ action_description_line req' = EmptyString
        /\ action_description_line req'
           <> chosen_option_line default_choice_text).
Proof.
  cbv zeta. split.
  - eexists. split; [reflexivity|]. split; [reflexivity|]. split.
    + cbn. intros choice [<-|[<-|[]]]; cbn; discriminate.
    + split; [reflexivity|]. intros H. vm_compute in H. discriminate H.
  - eexists. split; [reflexivity|]. split; [reflexivity|].
    split; [reflexivity|]. intros H. vm_compute in H. discriminate H.
Qed.

(** C8, as the code has it. On an advance call with no user_action (absent
    or empty) and a non-empty choice_id that is none of the ids of the last
    step of the history, resolving the choice does not raise: the choice text
    is the generic phrase, the action line is the chosen-option sentence
    built on it, and the handler goes on to call the generator with the
    prompt that carries this line. *)
Theorem unmatched_choice_falls_back :
  forall (req : NextStepRequest.t) (c : string),
    opt_truthy (NextStepRequest.user_action req) = false ->
    NextStepRequest.choice_id req = Some c ->
    c <> EmptyString ->
    (forall part choice,
        last_part (NextStepRequest.story_history req) = Some part ->
        In choice (StoryResponse.choices part) ->
        StoryChoice.id choice <> c) ->
    user_choice_text req = default_choice_text
    /\ action_description_line req = chosen_option_line default_choice_text
    /\ forall (w : world) (st : state) (g : string),
         narrative_guidance req = Ret g ->
         exists r st' later,
           next_step w req st = (r, st')
           /\ events st'
              = (events st
                 ++ TextCall
                      [TextPart
                         (story_context req ++ nl
                          ++ chosen_option_line default_choice_text
                          ++ nl ++ nl
                          ++ "--- 核心任务指令 (最重要！) ---" ++ nl
                          ++ "请始终围绕故事主线：“" ++ main_quest_line req
                          ++ "”。" ++ nl
                          ++ "--- 当前阶段叙事指令 ---" ++ nl
                          ++ g)] :: later)%list.
Proof.
  intros req c Haction Hchoice Hc Hunmatched.
  assert (Htext : user_choice_text req = default_choice_text).
  { unfold user_choice_text. rewrite Hchoice. cbn [str_eq_opt].
    destruct (last_part (NextStepRequest.story_history req)) as [part|] eqn:E;
      [|reflexivity].
    rewrite find_none_unmatched; [reflexivity|].
    intros choice. now apply Hunmatched. }
  assert (Hline : action_description_line req
                  = chosen_option_line default_choice_text).
  { unfold action_description_line. rewrite Haction, Hchoice, Htext.
    cbn [opt_truthy]. apply str_truthy_iff in Hc. now rewrite Hc. }
  split; [exact Htext|]. split; [exact Hline|].
  intros w st g Hg.
  rewrite <- (continuation_prompt_action req g _ Hline).
  now apply next_step_reaches_the_generator.
Qed.

Lemma unmatched_choice_falls_back_witness :
  action_description_line
    (NextStepRequest.mk (Some "Z") None [step0] None 1 5)
  = chosen_option_line "继续".
Proof.
  apply (unmatched_choice_falls_back
           (NextStepRequest.mk (Some "Z") None [step0] None 1 5) "Z").
  - reflexivity.
  - reflexivity.
  - discriminate.
  - intros part choice H. cbn in H. injection H as <-.
    cbn. intros [<-|[<-|[]]]; cbn; discriminate.
Defined.

(** C10, a request with an empty history that validation accepts as a
    choice. With choice_id "A" and a blank user_action the request passes the
    validator, and the handler describes the blank action, not the choice:
    the supplied choice_id is not resolved to the generic phrase. *)
Lemma empty_history_blank_action :
  let d := NextStepRequest.mk_data (Some (Some "A")) (Some (Some "  "))
             [] None 1 5 in
  exists req,
    NextStepRequest.model_validate d = Ret req
    /\ NextStepRequest.story_history req = []
    /\ NextStepRequest.choice_id req = Some "A"
    /\ action_description_line req = custom_action_line "  "
    /\ action_description_line req <> chosen_option_line default_choice_text.
Proof.
  cbv zeta. eexists. split; [reflexivity|]. split; [reflexivity|].
  split; [reflexivity|]. split; [reflexivity|].
  intros H. vm_compute in H. discriminate H.
Qed.

(** C10, as the code has it. On an advance call with an empty history
    nothing is indexed: the main-quest line of the prompt is the fixed
    default, every returned step carries that default as its main quest (and
    a step is returned whenever the generator's answer is well formed), and
    when the handler resolves a choice (no user_action, absent or empty, and
    a non-empty choice_id) the choice text is the generic phrase. *)
Theorem empty_history_defaults :
  forall (req : NextStepRequest.t),
    NextStepRequest.story_history req = [] ->
    main_quest_line req = "继续探索"
    /\ (forall w st step st',
          next_step w req st = (Ret step, st') ->
          StoryResponse.main_quest step = "继续探索")
    /\ (forall w st g d t ip cs,
          narrative_guidance req = Ret g ->
          text_model w [TextPart (continuation_prompt req g)]
          = TextJson (JObj d) ->
          dict_get d "text" = Some (JStr t) ->
          dict_get d "image_prompt" = Some ip ->
          (if is_final_step req then cs = []
           else exists cv, dict_get d "choices" = Some cv
                           /\ choice_list cv = Ret cs) ->
          exists url st',
            next_step w req st
            = (Ret (StoryResponse.mk t (Some url) cs "继续探索"), st'))
    /\ (opt_truthy (NextStepRequest.user_action req) = false ->
        opt_truthy (NextStepRequest.choice_id req) = true ->
        user_choice_text req = "继续"
        /\ action_description_line req = chosen_option_line "继续").
Proof.
  intros req Hhist.
  assert (Hquest : main_quest_line req = "继续探索").
  { unfold main_quest_line. now rewrite Hhist. }
  split; [exact Hquest|]. split; [|split].
  - intros w st step st' Hrun. apply next_step_returns in Hrun.
    destruct Hrun as (g & d & t & url & cs & _ & _ & _ & _ & ->).
    exact Hquest.
  - intros w st g d t ip cs Hg Htext Ht Hip Hcs. rewrite <- Hquest.
    now apply (next_step_runs w req st g d t ip cs).
  - intros Haction Hchoice.
    assert (Htext : user_choice_text req = "继续").
    { unfold user_choice_text. now rewrite Hhist. }
    split; [exact Htext|].
    unfold action_description_line. now rewrite Haction, Hchoice, Htext.
Qed.

Lemma empty_history_defaults_witness :
  (exists url st',
      next_step (story_world two_choices)
        (NextStepRequest.mk (Some "A") None [] None 1 5) empty_state
      = (Ret (StoryResponse.mk "once" (Some url)
                [StoryChoice.mk "A" "x"; StoryChoice.mk "B" "y"]
                "继续探索"), st'))
  /\ action_description_line (NextStepRequest.mk (Some "A") None [] None 1 5)
     = chosen_option_line "继续".
Proof.
  destruct (empty_history_defaults
              (NextStepRequest.mk (Some "A") None [] None 1 5) eq_refl)
    as (_ & _ & H & H').
  split.
  - eapply (H (story_world two_choices) empty_state _ _ "once" (JStr "a cat")).
    + vm_compute. reflexivity.
    + reflexivity.
    + reflexivity.
    + reflexivity.
    + cbn. exists (JArr two_choices). split; reflexivity.
  - apply H'; reflexivity.
Defined.

(** ** The image prompt *)

Lemma rule_in_later w ai_data later contents :
  Forall (uses_consistency_rule w ai_data) later ->
  In (ImageCall contents) later ->
  exists image_prompt rest,
    subscript ai_data "image_prompt" = Ret image_prompt
    /\ contents
       = TextPart (IMAGE_CONSISTENCY_RULE ++ " " ++ fmt_json w image_prompt)
         :: rest.
Proof.
  intros Hall Hin. rewrite Forall_forall in Hall.
  exact (Hall _ Hin).
Qed.

(** C9. Every call to the image capability that the advance handler or the
    start handler makes, retries included, has contents that open with the
    constant consistency rule, one space, and the image description of the
    generator's answer to this request's prompt (the description itself when
    it is a string). The rule is one closed constant, the same for every
    request. *)
Theorem image_prompt_opens_with_the_rule :
  forall (w : world),
    (forall req st,
        exists r st' new,
          next_step w req st = (r, st')
          /\ events st' = (events st ++ new)%list
          /\ forall contents,
               In (ImageCall contents) new ->
               exists g ai_data image_prompt rest,
                 narrative_guidance req = Ret g
                 /\ text_model w [TextPart (continuation_prompt req g)]
                    = TextJson ai_data
                 /\ subscript ai_data "image_prompt" = Ret image_prompt
                 /\ contents
                    = TextPart (IMAGE_CONSISTENCY_RULE ++ " "
                                ++ fmt_json w image_prompt) :: rest)
    /\ (forall req st,
          exists r st' new,
            start_story w req st = (r, st')
            /\ events st' = (events st ++ new)%list
            /\ forall contents,
                 In (ImageCall contents) new ->
                 exists image_input ai_data image_prompt rest,
                   text_model w
                     (text_contents (initial_prompt_text req) image_input)
                   = TextJson ai_data
                   /\ subscript ai_data "image_prompt" = Ret image_prompt
                   /\ contents
                      = TextPart (IMAGE_CONSISTENCY_RULE ++ " "
                                  ++ fmt_json w image_prompt) :: rest)
    /\ (forall description, fmt_json w (JStr description) = description).
Proof.
  intros w. split; [|split].
  - intros req st.
    destruct (next_step_events w req st) as (r & st' & new & Hrun & Hev & Hnew).
    exists r, st', new. split; [exact Hrun|]. split; [exact Hev|].
    intros contents Hin.
    destruct (narrative_guidance req) as [g|e].
    2:{ subst new. contradiction. }
    destruct Hnew as (later & -> & Hlater).
    destruct Hin as [Hin|Hin]; [discriminate Hin|].
    destruct Hlater as [->|(ai_data & Htext & Hall)]; [contradiction|].
    destruct (rule_in_later w ai_data later contents Hall Hin)
      as (image_prompt & rest & Hip & ->).
    now exists g, ai_data, image_prompt, rest.
  - intros req st.
    destruct (start_story_events w req st) as (r & st' & new & Hrun & Hev & Hnew).
    exists r, st', new. split; [exact Hrun|]. split; [exact Hev|].
    intros contents Hin.
    destruct Hnew as [->|(image_input & later & -> & Hlater)]; [contradiction|].
    destruct Hin as [Hin|Hin].
    { unfold text_contents in Hin. destruct image_input; discriminate Hin. }
    destruct Hlater as [->|(ai_data & Htext & Hall)]; [contradiction|].
    destruct (rule_in_later w ai_data later contents Hall Hin)
      as (image_prompt & rest & Hip & ->).
    now exists image_input, ai_data, image_prompt, rest.
  - reflexivity.
Qed.

Lemma image_prompt_opens_with_the_rule_witness :
  exists image_prompt rest,
    subscript (answer two_choices) "image_prompt" = Ret image_prompt
    /\ [TextPart (IMAGE_CONSISTENCY_RULE ++ " a cat")]
       = TextPart (IMAGE_CONSISTENCY_RULE ++ " "
                   ++ fmt_json (story_world two_choices) image_prompt) :: rest.
Proof.
  destruct (image_prompt_opens_with_the_rule (story_world two_choices))
    as (H & _).
  destruct (H (NextStepRequest.mk (Some "B") None [step0] None 1 5)
              empty_state) as (r & st' & new & Hrun & Hev & Hall).
  assert (Hin : In (ImageCall [TextPart (IMAGE_CONSISTENCY_RULE ++ " a cat")])
                   new).
  { change new with (events empty_state ++ new)%list. rewrite <- Hev.
    change st' with (snd (r, st')). rewrite <- Hrun.
    vm_compute. right. left. reflexivity. }
  destruct (Hall _ Hin) as (g & ai_data & ip & rest & _ & Htext & Hip & Hc).
  cbn [text_model story_world] in Htext. injection Htext as <-.
  now exists ip, rest.
Defined.

(** * Further properties of the code *)

(** ** Start request validation *)

Lemma strip_empty : strip EmptyString = EmptyString.
Proof. reflexivity. Qed.

Lemma nonblank_iff field :
  StoryStartRequest.nonblank field = true <->
  exists s, field = Some (Some s) /\ strip s <> EmptyString.
Proof.
  unfold StoryStartRequest.nonblank.
  destruct field as [[s|]|]; split; try discriminate;
    try (intros [s' [H _]]; discriminate).
  - intros H. exists s. split; [reflexivity|].
    apply negb_true_iff in H. now apply String.eqb_neq in H.
  - intros [s' [H Hs]]. injection H as ->.
    apply negb_true_iff. now apply String.eqb_neq.
Qed.

Lemma nonblank_truthy field :
  StoryStartRequest.nonblank field = true ->
  opt_truthy (StoryStartRequest.field_value field) = true.
Proof.
  intros H. apply nonblank_iff in H. destruct H as (s & -> & Hs).
  cbn. destruct s; [|reflexivity]. now rewrite strip_empty in Hs.
Qed.

(** X1. Building the start request raises a [ValidationError] exactly when
    neither the character nor the image is present with a non-blank value;
    unlike the advance request, both may be given together. When it raises,
    the route returns that error with the state untouched. *)
Theorem start_validation_needs_a_protagonist :
  forall (d : StoryStartRequest.data),
    let has_character := StoryStartRequest.character_exists d in
    let has_image := StoryStartRequest.image_exists d in
    (has_character = true <->
       exists s, StoryStartRequest.raw_character d = Some (Some s)
                 /\ strip s <> EmptyString)
    /\ (has_image = true <->
          exists s, StoryStartRequest.raw_image_data_url d = Some (Some s)
                    /\ strip s <> EmptyString)
    /\ ((exists msg,
            StoryStartRequest.model_validate d = Raise (ValidationError msg))
        <-> has_character = false /\ has_image = false)
    /\ ((exists req, StoryStartRequest.model_validate d = Ret req)
        <-> has_character = true \/ has_image = true)
    /\ (forall (w : world) (st : state) (e : exn),
          StoryStartRequest.model_validate d = Raise e ->
          post_start_story w d st = (Raise e, st)).
Proof.
  intros d has_character has_image.
  split; [apply nonblank_iff|]. split; [apply nonblank_iff|].
  split; [|split].
  - unfold StoryStartRequest.model_validate,
      StoryStartRequest.check_character_or_image.
    fold has_character has_image.
    destruct has_character, has_image; cbn; split; intros H;
      try (destruct H as [H1 H2]; discriminate);
      try (destruct H; discriminate); try (split; reflexivity).
    eexists; reflexivity.
  - unfold StoryStartRequest.model_validate,
      StoryStartRequest.check_character_or_image.
    fold has_character has_image.
    destruct has_character, has_image; cbn; split; intros H;
      try (destruct H; discriminate); auto; eexists; reflexivity.
  - intros w st e H. unfold post_start_story, bind, lift. now rewrite H.
Qed.

Lemma start_validation_needs_a_protagonist_witness :
  post_start_story (story_world two_choices)
    (StoryStartRequest.mk_data (Some (Some "   ")) "forest" 5 None)
    empty_state
  = (Raise (ValidationError
              "必须提供 character 或 image_data_url 中的一个来指定故事主角。"),
     empty_state).
Proof.
  apply (proj2 (proj2 (proj2 (proj2 (start_validation_needs_a_protagonist _))))).
  reflexivity.
Defined.

(** X2. A validated start request that carries no image (none, or the empty
    string) has a non-blank character, so the text-only opening prompt always
    names a protagonist and never prints a missing name. *)
Theorem text_only_start_names_the_character :
  forall (d : StoryStartRequest.data) (req : StoryStartRequest.t),
    StoryStartRequest.model_validate d = Ret req ->
    opt_truthy (StoryStartRequest.image_data_url req) = false ->
    exists name,
      StoryStartRequest.character req = Some name
      /\ strip name <> EmptyString
      /\ initial_prompt_text req
         = "请为一个关于主角 '" ++ name ++ "' 在 '"
           ++ StoryStartRequest.setting req
           ++ "' 场景下的儿童故事，创作一个引人入胜的开篇。"
           ++ planned_length (StoryStartRequest.total_steps req)
           ++ quest_and_hook.
Proof.
  intros d req Hvalid Himage.
  unfold StoryStartRequest.model_validate,
    StoryStartRequest.check_character_or_image in Hvalid.
  destruct (StoryStartRequest.character_exists d) eqn:Hc.
  - cbn in Hvalid. injection Hvalid as <-.
    unfold StoryStartRequest.character_exists in Hc.
    apply nonblank_iff in Hc. destruct Hc as (name & Hraw & Hname).
    exists name. unfold initial_prompt_text. rewrite Hraw in *.
    cbn [StoryStartRequest.character StoryStartRequest.image_data_url
         StoryStartRequest.setting StoryStartRequest.total_steps
         StoryStartRequest.field_value] in *.
    rewrite Himage. cbn [fmt_opt].
    split; [reflexivity|]. split; [exact Hname|]. reflexivity.
  - destruct (StoryStartRequest.image_exists d) eqn:Hi.
    + cbn in Hvalid. injection Hvalid as <-. cbn in Himage.
      apply nonblank_truthy in Hi. congruence.
    + cbn in Hvalid. discriminate Hvalid.
Qed.

Lemma text_only_start_names_the_character_witness :
  exists name,
    StoryStartRequest.character
      (StoryStartRequest.mk (Some "Mimi") "forest" 5 (Some EmptyString))
    = Some name
    /\ strip name <> EmptyString
    /\ initial_prompt_text
         (StoryStartRequest.mk (Some "Mimi") "forest" 5 (Some EmptyString))
       = "请为一个关于主角 '" ++ name ++ "' 在 '" ++ "forest"
         ++ "' 场景下的儿童故事，创作一个引人入胜的开篇。"
         ++ planned_length 5 ++ quest_and_hook.
Proof.
  apply (text_only_start_names_the_character
           (StoryStartRequest.mk_data (Some (Some "Mimi")) "forest" 5
              (Some (Some EmptyString)))); reflexivity.
Defined.

(** ** The reference image decoder *)

Lemma after_comma_header header payload :
  after_comma header = None ->
  after_comma (header ++ "," ++ payload) = Some payload.
Proof.
  induction header as [|c rest IH]; cbn; intros H; [reflexivity|].
  destruct (Ascii.eqb c ","); [discriminate H|]. now apply IH.
Qed.

(** X3. The decoder drops whatever precedes the first comma, without looking
    at it, and decodes only what follows; a payload without a comma is decoded
    whole. It fails when the base64 text does not decode or the bytes are not
    a picture, and it never touches the state. *)
Theorem decode_drops_the_header :
  forall (w : world) (header payload : string) (st : state),
    after_comma header = None ->
    let decoded text :=
      match b64decode w text with
      | Some img_bytes =>
          if identifies w img_bytes then (Ret img_bytes, st)
          else (Raise OSError, st)
      | None => (Raise (ValueError "Incorrect padding"), st)
      end in
    decode_base64_to_image w (header ++ "," ++ payload) st = decoded payload
    /\ decode_base64_to_image w header st = decoded header.
Proof.
  intros w header payload st Hheader decoded.
  unfold decode_base64_to_image, decoded.
  rewrite (after_comma_header header payload Hheader), Hheader.
  unfold image_open_bytes, ret, raise. split.
  - destruct (b64decode w payload) as [b|]; [|reflexivity].
    destruct (identifies w b); reflexivity.
  - destruct (b64decode w header) as [b|]; [|reflexivity].
    destruct (identifies w b); reflexivity.
Qed.

Lemma decode_drops_the_header_witness :
  decode_base64_to_image (story_world []) "data:image/png;base64,iVBORw0KGgo="
    empty_state
  = (Ret "iVBORw0KGgo=", empty_state).
Proof.
  apply (decode_drops_the_header (story_world []) "data:image/png;base64"
           "iVBORw0KGgo=" empty_state).
  reflexivity.
Defined.

(** X4. When the upload of a start request does not decode, the start handler
    raises the decoder's error before any capability is called: the state,
    and with it the event log, is the one it started from. *)
Theorem start_aborts_on_a_bad_upload :
  forall (w : world) (req : StoryStartRequest.t) (upload : string)
         (st : state) (e : exn),
    StoryStartRequest.image_data_url req = Some upload ->
    upload <> EmptyString ->
    fst (decode_base64_to_image w upload st) = Raise e ->
    start_story w req st = (Raise e, st).
Proof.
  intros w req upload st e Hurl Hne Hdecode.
  pose proof (image_input_reads w req st) as Hread.
  unfold start_story. unfold bind at 1.
  unfold image_input_for_gemini in *. rewrite Hurl in *.
  apply str_truthy_iff in Hne. rewrite Hne in *.
  unfold bind at 1 in Hread. unfold bind at 1.
  destruct (decode_base64_to_image w upload st) as [[img|e'] st0].
  - discriminate Hdecode.
  - cbn in Hdecode, Hread. injection Hdecode as ->. now subst st0.
Qed.

Lemma start_aborts_on_a_bad_upload_witness :
  start_story blind_world
    (StoryStartRequest.mk (Some "Mimi") "forest" 5 (Some "data:,notapicture"))
    empty_state
  = (Raise OSError, empty_state).
Proof.
  apply (start_aborts_on_a_bad_upload _ _ "data:,notapicture");
    [reflexivity | discriminate | reflexivity].
Defined.

(** ** The narrative generation client *)

Lemma narrative_client_is_one_call w prompt image_input st :
  exists r,
    generate_story_part w prompt image_input st
    = (r, log (TextCall (text_contents prompt image_input)) st)
    /\ (forall value,
          r = Ret value ->
          text_model w (text_contents prompt image_input) = TextJson value)
    /\ (forall e,
          r = Raise e ->
          (exists status detail, e = HTTPException status detail)
          \/ e = UnboundLocalError "response_text").
Proof.
  unfold generate_story_part, call_text_model, bind.
  destruct (text_model w (text_contents prompt image_input)) as [e|raw|value];
    cbn.
  - destruct e; eexists; (split; [reflexivity|]);
      (split; [intros v H; discriminate H|]);
      intros e' H; injection H as <-;
      try (now right); left; eexists; eexists; reflexivity.
  - eexists. split; [reflexivity|]. split; [intros v H; discriminate H|].
    intros e' H. injection H as <-. left. eexists. eexists. reflexivity.
  - eexists. split; [reflexivity|]. split.
    + intros v H. now injection H as ->.
    + intros e H. discriminate H.
Qed.



(** ** More on the image generation client *)

Lemma first_inline_skips skipped data rest :
  (forall p, In p skipped -> p = None) ->
  first_inline (skipped ++ Some data :: rest) = Ret data.
Proof.
  induction skipped as [|p skipped IH]; intros H; [reflexivity|].
  rewrite (H p (or_introl eq_refl)). cbn. apply IH.
  intros q Hq. apply H. now right.
Qed.

(** X6. Of the parts of a reply the client takes the first one that carries
    inline data: parts without data before it are skipped and whatever
    follows it is ignored. Such a first reply ends the run after one call and
    no delay. *)
Theorem client_takes_the_first_payload :
  forall (w : world) (prompt : string) (previous_image : option image)
         (st : state) (skipped rest : list (option bytes)) (data : bytes),
    (forall p, In p skipped -> p = None) ->
    image_model w (image_calls st) (image_contents prompt previous_image)
    = ImageParts (skipped ++ Some data :: rest) ->
    _blocking_image_generation w prompt previous_image st
    = (Ret data, called (image_contents prompt previous_image) st).
Proof.
  intros w prompt previous_image st skipped rest data Hskipped Hreply.
  apply client_first_try. rewrite Hreply. cbn.
  now apply first_inline_skips.
Qed.

Lemma client_takes_the_first_payload_witness :
  _blocking_image_generation
    (world_with (TextNotJson "oops")
       (ImageParts [None; Some "FIRST"; Some "SECOND"]))
    "p" None empty_state
  = (Ret "FIRST", called [TextPart "p"] empty_state).
Proof.
  apply (client_takes_the_first_payload _ "p" None empty_state
           [None] [Some "SECOND"] "FIRST").
  - intros p [<-|[]]. reflexivity.
  - reflexivity.
Defined.

(** X7. One run of the image client makes one, two or three calls and sleeps
    0, 2 or 6 time-units in all according to their number; it advances the
    call counter by the calls it made. It raises only after three calls, so
    giving up always costs two delays, 6 time-units, and no run sleeps more
    than that. *)
Theorem client_backoff_is_bounded :
  forall (w : world) (prompt : string) (previous_image : option image)
         (st : state),
    exists r st' new,
      _blocking_image_generation w prompt previous_image st = (r, st')
      /\ events st' = (events st ++ new)%list
      /\ image_calls st' = (image_calls st + image_call_count new)%nat
      /\ (1 <= image_call_count new <= 3)%nat
      /\ total_delay new
         = match image_call_count new with
           | 1%nat => 0
           | 2%nat => 2
           | _ => 6
           end
      /\ (forall e, r = Raise e -> image_call_count new = 3%nat).
Proof.
  intros w prompt previous_image st.
  set (contents := image_contents prompt previous_image).
  destruct (attempt_outcome (image_model w (image_calls st) contents))
    as [d0|e0] eqn:H0.
  { rewrite (client_first_try _ _ _ _ _ H0). fold contents.
    exists (Ret d0), (called contents st), [ImageCall contents].
    cbn. repeat split; try lia; try discriminate. }
  destruct (attempt_outcome (image_model w (S (image_calls st)) contents))
    as [d1|e1] eqn:H1.
  { rewrite (client_second_try _ _ _ _ _ _ H0 H1). fold contents.
    exists (Ret d1), (called contents (log (Sleep 2) (called contents st))),
      [ImageCall contents; Sleep 2; ImageCall contents].
    cbn. rewrite <- !app_assoc. repeat split; try lia; try discriminate. }
  rewrite (client_third_attempt _ _ _ _ _ _ H0 H1). fold contents.
  eexists. exists (after_three_attempts contents st),
    [ImageCall contents; Sleep 2; ImageCall contents; Sleep 4; ImageCall contents].
  split; [reflexivity|].
  split; [apply events_after_three_attempts|].
  cbn. repeat split; lia.
Qed.

Lemma client_backoff_is_bounded_witness :
  exists st' new,
    _blocking_image_generation (flaky_world 3) "p" None empty_state
    = (Raise no_image_data, st')
    /\ events st' = new
    /\ image_call_count new = 3%nat
    /\ total_delay new = 6.
Proof.
  destruct (client_backoff_is_bounded (flaky_world 3) "p" None empty_state)
    as (r & st' & new & Hrun & Hev & _ & _ & Hdelay & Hraise).
  assert (Hr : r = Raise no_image_data).
  { vm_compute in Hrun. now injection Hrun as <- _. }
  exists st', new. subst r. split; [exact Hrun|]. split; [exact Hev|].
  pose proof (Hraise _ eq_refl) as Hcount. split; [exact Hcount|].
  now rewrite Hcount in Hdelay.
Defined.

(** ** More on the continuity image orchestrator *)

Lemma client_keeps_files w prompt previous_image st :
  files (snd (_blocking_image_generation w prompt previous_image st)) = files st
  /\ tokens (snd (_blocking_image_generation w prompt previous_image st))
     = tokens st.
Proof.
  set (contents := image_contents prompt previous_image).
  destruct (attempt_outcome (image_model w (image_calls st) contents))
    as [d0|e0] eqn:H0.
  { rewrite (client_first_try _ _ _ _ _ H0). now split. }
  destruct (attempt_outcome (image_model w (S (image_calls st)) contents))
    as [d1|e1] eqn:H1.
  { rewrite (client_second_try _ _ _ _ _ _ H0 H1). now split. }
  rewrite (client_third_attempt _ _ _ _ _ _ H0 H1). now split.
Qed.

Lemma generate_and_store_outcome w prompt previous_image_url initial_image st :
  exists r st',
    generate_and_store w prompt previous_image_url initial_image st = (r, st')
    /\ ((exists e,
            r = Raise e
            /\ forall path content,
                 files st path = Some (File content) ->
                 files st' path = Some (File content))
        \/ (exists reference generated st2,
              previous_image_object w previous_image_url initial_image st
              = (Ret reference, st)
              /\ _blocking_image_generation w prompt reference st
                 = (Ret generated, st2)
              /\ identifies w generated = true
              /\ r = Ret (new_image_url w (tokens st))
              /\ files st' (new_image_path w (tokens st))
                 = Some (File (png_bytes w generated))
              /\ (forall path content,
                    path <> new_image_path w (tokens st) ->
                    files st path = Some (File content) ->
                    files st' path = Some (File content)))).
Proof.
  unfold generate_and_store. unfold bind at 1.
  pose proof (previous_image_object_reads w previous_image_url initial_image st)
    as Hread.
  destruct (previous_image_object w previous_image_url initial_image st)
    as [[reference|e] st1] eqn:Href; cbn in Hread; subst st1.
  2:{ eexists. eexists. split; [reflexivity|]. left. eexists.
      split; [reflexivity|]. auto. }
  unfold bind at 1.
  destruct (client_keeps_files w prompt reference st) as [Hfiles Htokens].
  destruct (_blocking_image_generation w prompt reference st)
    as [[data|e] st2] eqn:Hclient; cbn in Hfiles, Htokens.
  2:{ eexists. eexists. split; [reflexivity|]. left. eexists.
      split; [reflexivity|]. intros path content. now rewrite Hfiles. }
  unfold bind, image_open_bytes, os_makedirs, uuid_uuid4, image_save, ret, raise.
  destruct (identifies w data) eqn:Hid.
  2:{ eexists. eexists. split; [reflexivity|]. left. eexists.
      split; [reflexivity|]. intros path content. now rewrite Hfiles. }
  destruct (files st2 "generated_images") as [[|content0]|] eqn:Edir;
    cbn [tokens files].
  - destruct (save_raises w _) eqn:Hsave.
    + eexists. eexists. split; [reflexivity|]. left. eexists.
      split; [reflexivity|]. intros path content. now rewrite Hfiles.
    + eexists. eexists. split; [reflexivity|]. right.
      exists reference, data, st2.
      unfold new_image_url, new_image_path. rewrite Htokens.
      split; [reflexivity|]. split; [exact Hclient|]. split; [exact Hid|].
      split; [reflexivity|]. cbn [files]. split.
      * now rewrite String.eqb_refl.
      * intros path content Hpath Hfile.
        apply String.eqb_neq in Hpath. rewrite Hpath. now rewrite Hfiles.
  - eexists. eexists. split; [reflexivity|]. left. eexists.
    split; [reflexivity|]. intros path content. now rewrite Hfiles.
  - destruct (save_raises w _) eqn:Hsave.
    + eexists. eexists. split; [reflexivity|]. left. eexists.
      split; [reflexivity|]. cbn [files]. intros path content Hfile.
      destruct (String.eqb_spec path "generated_images") as [->|_].
      * rewrite <- Hfiles in Hfile. congruence.
      * now rewrite Hfiles.
    + eexists. eexists. split; [reflexivity|]. right.
      exists reference, data, st2.
      unfold new_image_url, new_image_path. rewrite Htokens.
      split; [reflexivity|]. split; [exact Hclient|]. split; [exact Hid|].
      split; [reflexivity|]. cbn [files]. split.
      * now rewrite String.eqb_refl.
      * intros path content Hpath Hfile.
        apply String.eqb_neq in Hpath. rewrite Hpath.
        destruct (String.eqb_spec path "generated_images") as [->|_].
        -- rewrite <- Hfiles in Hfile. congruence.
        -- now rewrite Hfiles.
Qed.

(** X8. The address the orchestrator returns is one of three: the previous
    address, the placeholder, or the address of a picture it has just stored.
    In the last case the image client returned bytes that decode as a
    picture, and the file named by the fresh token is the PNG file that
    [image.save] writes for that picture (not the bytes as received). In
    every case the pictures stored before the call are still there,
    unchanged, except that a new picture replaces whatever lay at its own
    path. *)
Theorem orchestrator_returns_a_stored_picture_or_falls_back :
  forall (w : world) (prompt : string) (previous_image_url : option string)
         (initial_image : option image) (st : state),
    exists url st',
      generate_consistent_image w prompt previous_image_url initial_image st
      = (Ret url, st')
      /\ (url = fallback_url previous_image_url
          \/ exists reference generated st2,
               previous_image_object w previous_image_url initial_image st
               = (Ret reference, st)
               /\ _blocking_image_generation w prompt reference st
                  = (Ret generated, st2)
               /\ identifies w generated = true
               /\ url = new_image_url w (tokens st)
               /\ files st' (new_image_path w (tokens st))
                  = Some (File (png_bytes w generated)))
      /\ (forall path content,
            path <> new_image_path w (tokens st) ->
            files st path = Some (File content) ->
            files st' path = Some (File content)).
Proof.
  intros w prompt previous_image_url initial_image st.
  unfold generate_consistent_image, try_except.
  destruct (generate_and_store_outcome w prompt previous_image_url
              initial_image st) as (r & st' & Hrun & Hcase).
  rewrite Hrun.
  destruct Hcase
    as [(e & -> & Hkeep)
       |(reference & generated & st2 & Href & Hclient & Hid & -> & Hfile
         & Hkeep)].
  - eexists. eexists. split; [reflexivity|]. split; [now left|].
    intros path content _. apply Hkeep.
  - eexists. eexists. split; [reflexivity|]. split; [|exact Hkeep].
    right. now exists reference, generated, st2.
Qed.

Lemma orchestrator_returns_a_stored_picture_or_falls_back_witness :
  exists st',
    generate_consistent_image (story_world []) "p" None None empty_state
    = (Ret "http://127.0.0.1:8000/images/token0.png", st')
    /\ exists generated st2,
         _blocking_image_generation (story_world []) "p" None empty_state
         = (Ret generated, st2)
         /\ files st' "generated_images/token0.png"
            = Some (File (png_bytes (story_world []) generated)).
Proof.
  destruct (orchestrator_returns_a_stored_picture_or_falls_back
              (story_world []) "p" None None empty_state)
    as (url & st' & Hrun & Hcase & _).
  assert (Hurl : url = "http://127.0.0.1:8000/images/token0.png").
  { pose proof (f_equal fst Hrun) as H. vm_compute in H. now injection H as <-. }
  subst url. exists st'. split; [exact Hrun|].
  destruct Hcase
    as [H|(reference & generated & st2 & Href & Hclient & _ & _ & Hfile)];
    [discriminate H|].
  assert (Hnone : reference = None).
  { vm_compute in Href. now injection Href as <-. }
  subst reference. now exists generated, st2.
Defined.

Lemma append_assoc (a b c : string) : (a ++ b) ++ c = a ++ b ++ c.
Proof. induction a as [|x a IH]; cbn; [reflexivity|]. now rewrite IH. Qed.

Lemma has_slash_app a b : has_slash (a ++ b) = has_slash a || has_slash b.
Proof.
  induction a as [|x a IH]; cbn; [reflexivity|].
  rewrite IH. now rewrite orb_assoc.
Qed.

Lemma basename_after_slash directory name :
  has_slash name = false -> basename (directory ++ "/" ++ name) = name.
Proof.
  intros Hname. induction directory as [|x directory IH]; cbn.
  - now rewrite Hname.
  - rewrite has_slash_app. cbn. now rewrite orb_true_r.
Qed.

Lemma basename_new_image_url w n :
  has_slash (uuid4 w n) = false ->
  basename (new_image_url w n) = uuid4 w n ++ ".png".
Proof.
  intros Htoken. unfold new_image_url.
  change (BASE_URL w ++ "/images/" ++ uuid4 w n ++ ".png")
    with (BASE_URL w ++ ("/images" ++ "/" ++ uuid4 w n ++ ".png")).
  rewrite <- append_assoc. apply basename_after_slash.
  rewrite has_slash_app, Htoken. reflexivity.
Qed.

(** X9. Continuity round trip. When the orchestrator has stored a new
    picture and returned its address, and the token holds no slash, the
    reference resolution of the next call, given that address as the previous
    one and no upload, finds the stored file under the name at the end of the
    address and yields exactly the stored picture. *)
Theorem stored_picture_is_the_next_reference :
  forall (w : world) (prompt : string) (previous_image_url : option string)
         (initial_image : option image) (st : state) (url : string)
         (st' : state),
    generate_and_store w prompt previous_image_url initial_image st
    = (Ret url, st') ->
    has_slash (uuid4 w (tokens st)) = false ->
    exists data,
      files st' ("generated_images/" ++ basename url) = Some (File data)
      /\ identifies w data = true
      /\ previous_image_object w (Some url) None st' = (Ret (Some data), st').
Proof.
  intros w prompt previous_image_url initial_image st url st' Hrun Htoken.
  destruct (generate_and_store_outcome w prompt previous_image_url
              initial_image st) as (r & st2 & Hrun' & Hcase).
  rewrite Hrun in Hrun'. injection Hrun' as <- <-.
  destruct Hcase
    as [(e & He & _)|(reference & generated & st2 & _ & _ & _ & Hurl & Hfile & _)];
    [discriminate He|].
  injection Hurl as ->.
  pose proof (png_opens w generated) as Hid.
  set (data := png_bytes w generated) in *.
  exists data. rewrite (basename_new_image_url w _ Htoken).
  fold (new_image_path w (tokens st)).
  split; [exact Hfile|]. split; [exact Hid|].
  unfold previous_image_object.
  assert (Htruthy : str_truthy (new_image_url w (tokens st)) = true).
  { unfold new_image_url. destruct (BASE_URL w); reflexivity. }
  rewrite Htruthy. cbv zeta. rewrite (basename_new_image_url w _ Htoken).
  fold (new_image_path w (tokens st)).
  unfold bind, os_path_exists, image_open_path, image_open_bytes, ret.
  rewrite Hfile. cbv beta iota. rewrite Hfile, Hid. reflexivity.
Qed.

Lemma stored_picture_is_the_next_reference_witness :
  exists st',
    generate_and_store (story_world []) "p" None None empty_state
    = (Ret "http://127.0.0.1:8000/images/token0.png", st')
    /\ previous_image_object (story_world [])
         (Some "http://127.0.0.1:8000/images/token0.png") None st'
       = (Ret (Some "PNG"), st').
Proof.
  set (out := generate_and_store (story_world []) "p" None None empty_state).
  assert (Hout : out = (Ret "http://127.0.0.1:8000/images/token0.png", snd out))
    by (vm_compute; reflexivity).
  exists (snd out). split; [exact Hout|].
  destruct (stored_picture_is_the_next_reference (story_world []) "p" None None
              empty_state _ _ Hout eq_refl) as (data & Hfile & _ & Hnext).
  vm_compute in Hfile. injection Hfile as <-. exact Hnext.
Defined.

Lemma bind_same_start {A B : Type} (m m' : M A) (k : A -> M B) st :
  m st = m' st -> bind m k st = bind m' k st.
Proof. unfold bind. now intros ->. Qed.

(** X10. Reference resolution at its edges, with no upload and a non-empty
    previous address. When no file lies under the name at the end of the
    address, the client is called without a reference. When something lies
    there that is not a readable picture (a directory, or bytes that do not
    decode), the orchestrator gives up at once: it returns the previous
    address without calling the image capability and leaves the state as it
    was. *)
Theorem unreadable_reference_skips_generation :
  forall (w : world) (prompt url : string) (st : state),
    url <> EmptyString ->
    let path := "generated_images/" ++ basename url in
    (files st path = None ->
     generate_and_store w prompt (Some url) None st
     = generate_and_store w prompt None None st)
    /\ (files st path = Some Directory
        \/ (exists content, files st path = Some (File content)
                            /\ identifies w content = false) ->
        generate_consistent_image w prompt (Some url) None st = (Ret url, st)).
Proof.
  intros w prompt url st Hurl path.
  apply str_truthy_iff in Hurl.
  split.
  - intros Hnone. unfold generate_and_store. apply bind_same_start.
    unfold previous_image_object. rewrite Hurl.
    cbv zeta. fold path. unfold bind, os_path_exists, ret.
    now rewrite Hnone.
  - intros Hbad.
    unfold generate_consistent_image, try_except, generate_and_store.
    unfold bind at 1. unfold previous_image_object. rewrite Hurl.
    cbv zeta. fold path.
    unfold bind, os_path_exists, image_open_path, image_open_bytes, ret, raise.
    destruct Hbad as [Hdir|(content & Hfile & Hid)].
    + rewrite Hdir. cbv beta iota. rewrite Hdir. cbn. now rewrite Hurl.
    + rewrite Hfile. cbv beta iota. rewrite Hfile, Hid. cbn. now rewrite Hurl.
Qed.

Lemma unreadable_reference_skips_generation_witness :
  generate_consistent_image blind_world "p"
    (Some "http://127.0.0.1:8000/images/old.png") None
    (state_with_file "old.png" "torn")
  = (Ret "http://127.0.0.1:8000/images/old.png",
     state_with_file "old.png" "torn").
Proof.
  apply (unreadable_reference_skips_generation blind_world "p"
           "http://127.0.0.1:8000/images/old.png"
           (state_with_file "old.png" "torn")); [discriminate|].
  right. exists "torn". split; reflexivity.
Defined.

(** ** More on the advance handler *)

Lemma orchestrator_url w prompt previous_image_url initial_image st :
  exists url st',
    generate_consistent_image w prompt previous_image_url initial_image st
    = (Ret url, st')
    /\ (url = fallback_url previous_image_url
        \/ url = new_image_url w (tokens st)).
Proof.
  unfold generate_consistent_image, try_except.
  destruct (generate_and_store_outcome w prompt previous_image_url
              initial_image st) as (r & st' & Hrun & Hcase).
  rewrite Hrun.
  destruct Hcase
    as [(e & -> & _)|(reference & generated & st2 & _ & _ & _ & -> & _)].
  - eexists. eexists. split; [reflexivity|]. now left.
  - eexists. eexists. split; [reflexivity|]. now right.
Qed.

(** X11. There is no fallback narrative. When the text capability fails or
    its reply is not JSON, the advance handler raises right after that one
    call, an [HTTPException] or, for a [JSONDecodeError] of the call itself,
    the [UnboundLocalError] of the narrative client: the image capability is
    not called, nothing is slept or stored. *)
Theorem narrative_failure_is_fatal :
  forall (w : world) (req : NextStepRequest.t) (st : state) (g : string),
    narrative_guidance req = Ret g ->
    (forall value,
        text_model w [TextPart (continuation_prompt req g)] <> TextJson value) ->
    exists e,
      next_step w req st
      = (Raise e, log (TextCall [TextPart (continuation_prompt req g)]) st)
      /\ ((exists status detail, e = HTTPException status detail)
          \/ e = UnboundLocalError "response_text").
Proof.
  intros w req st g Hg Hfail.
  unfold next_step. unfold bind at 1. unfold lift at 1. rewrite Hg.
  unfold bind at 1.
  destruct (narrative_client_is_one_call w (continuation_prompt req g) None st)
    as (r & Hrun & Hret & Hraise).
  cbn [text_contents] in Hrun, Hret, Hraise. rewrite Hrun.
  destruct r as [value|e].
  - exfalso. apply (Hfail value). now apply Hret.
  - exists e. split; [reflexivity|]. now apply Hraise.
Qed.

Lemma narrative_failure_is_fatal_witness :
  exists e,
    next_step (flaky_world 0)
      (NextStepRequest.mk (Some "A") None [step0] None 5 5) empty_state
    = (Raise e,
       log (TextCall
              [TextPart
                 (continuation_prompt
                    (NextStepRequest.mk (Some "A") None [step0] None 5 5)
                    (finale_guidance "find the acorn"))]) empty_state)
    /\ ((exists status detail, e = HTTPException status detail)
        \/ e = UnboundLocalError "response_text").
Proof.
  apply (narrative_failure_is_fatal (flaky_world 0)
           (NextStepRequest.mk (Some "A") None [step0] None 5 5) empty_state
           (finale_guidance "find the acorn")).
  - reflexivity.
  - intros value. cbn. discriminate.
Defined.



(** X13. An answer of the generator that cannot yield an image prompt stops
    the advance call before any picture is asked for: when the answer is not
    a JSON object the handler raises [TypeError], and when it is an object
    without "image_prompt" it raises [KeyError]; in both cases the only event
    is the one text call. *)
Theorem answer_without_image_prompt_is_fatal :
  forall (w : world) (req : NextStepRequest.t) (st : state) (g : string)
         (ai_data : json),
    narrative_guidance req = Ret g ->
    text_model w [TextPart (continuation_prompt req g)] = TextJson ai_data ->
    let st1 := log (TextCall [TextPart (continuation_prompt req g)]) st in
    ((forall d, ai_data <> JObj d) ->
     next_step w req st = (Raise TypeError, st1))
    /\ (forall d,
          ai_data = JObj d -> dict_get d "image_prompt" = None ->
          next_step w req st = (Raise (KeyError "image_prompt"), st1)).
Proof.
  intros w req st g ai_data Hg Htext st1.
  unfold next_step, generate_story_part, call_text_model, text_contents.
  unfold bind, lift, ret, raise.
  rewrite Hg, Htext. cbv beta iota. fold st1.
  split.
  - intros Hnot.
    destruct ai_data as [| | | | | |d];
      try (destruct (is_final_step req); reflexivity).
    exfalso. now apply (Hnot d).
  - intros d -> Hmissing.
    destruct (is_final_step req).
    + unfold assign. cbv beta iota. unfold subscript at 1.
      rewrite dict_get_set_other by reflexivity. now rewrite Hmissing.
    + unfold subscript at 1. now rewrite Hmissing.
Qed.

Lemma answer_without_image_prompt_is_fatal_witness :
  next_step
    (world_with (TextJson (JArr [JStr "once upon a time"]))
       (ImageParts [Some "PNG"]))
    (NextStepRequest.mk (Some "A") None [step0] None 5 5) empty_state
  = (Raise TypeError,
     log (TextCall
            [TextPart
               (continuation_prompt
                  (NextStepRequest.mk (Some "A") None [step0] None 5 5)
                  (finale_guidance "find the acorn"))]) empty_state).
Proof.
  refine (proj1 (answer_without_image_prompt_is_fatal
                   (world_with (TextJson (JArr [JStr "once upon a time"]))
                      (ImageParts [Some "PNG"]))
                   (NextStepRequest.mk (Some "A") None [step0] None 5 5)
                   empty_state (finale_guidance "find the acorn")
                   (JArr [JStr "once upon a time"]) eq_refl eq_refl) _).
  intros d. discriminate.
Defined.

(** ** More on the player's action *)

Lemma last_part_snoc earlier part :
  last_part (earlier ++ [part])%list = Some part.
Proof.
  induction earlier as [|x earlier IH]; [reflexivity|].
  cbn [app]. destruct (earlier ++ [part])%list eqn:E.
  - destruct earlier; discriminate E.
  - cbn. exact IH.
Qed.

Lemma find_first_match {A : Type} (f : A -> bool) before x after :
  (forall b, In b before -> f b = false) -> f x = true ->
  find f (before ++ x :: after)%list = Some x.
Proof.
  induction before as [|b before IH]; intros Hbefore Hx; cbn.
  - now rewrite Hx.
  - rewrite (Hbefore b (or_introl eq_refl)). apply IH; [|exact Hx].
    intros b' Hb'. apply Hbefore. now right.
Qed.

(** X14. A choice is resolved against the last step of the history only.
    With no user_action (absent or empty) and a non-empty choice_id, the
    action line quotes the text of the first choice of the last step whose id
    equals the choice_id; the choices of earlier steps play no part, and of
    two choices with the same id the first one wins. *)
Theorem matched_choice_is_described :
  forall (req : NextStepRequest.t) (c : string)
         (earlier : list StoryResponse.t) (part : StoryResponse.t)
         (before after : list StoryChoice.t) (choice : StoryChoice.t),
    opt_truthy (NextStepRequest.user_action req) = false ->
    NextStepRequest.choice_id req = Some c ->
    c <> EmptyString ->
    NextStepRequest.story_history req = (earlier ++ [part])%list ->
    StoryResponse.choices part = (before ++ choice :: after)%list ->
    StoryChoice.id choice = c ->
    (forall b, In b before -> StoryChoice.id b <> c) ->
    action_description_line req
    = chosen_option_line (StoryChoice.text choice).
Proof.
  intros req c earlier part before after choice
    Haction Hchoice Hc Hhist Hchoices Hid Hbefore.
  unfold action_description_line. rewrite Haction, Hchoice.
  cbn [opt_truthy]. apply str_truthy_iff in Hc. rewrite Hc.
  unfold user_choice_text.
  rewrite Hhist, last_part_snoc, Hchoice, Hchoices.
  rewrite find_first_match; [reflexivity| |].
  - intros b Hb. cbn. apply String.eqb_neq. now apply Hbefore.
  - cbn. now apply String.eqb_eq.
Qed.

Lemma matched_choice_is_described_witness :
  action_description_line
    (NextStepRequest.mk (Some "B") None
       [StoryResponse.mk "t" None [StoryChoice.mk "B" "stay home"] "q"; step0]
       None 2 5)
  = chosen_option_line "go right".
Proof.
  apply (matched_choice_is_described _ "B"
           [StoryResponse.mk "t" None [StoryChoice.mk "B" "stay home"] "q"]
           step0 [StoryChoice.mk "A" "go left"] []
           (StoryChoice.mk "B" "go right"));
    try reflexivity; try discriminate.
  intros b [<-|[]]. cbn. discriminate.
Defined.

(** X15. A request validated with a free-text action carries no choice, and
    the handler quotes the action as it was sent: the validator strips it
    only to test for blankness, so surrounding whitespace reaches the
    prompt. *)
Theorem custom_action_is_quoted_as_sent :
  forall (d : NextStepRequest.data) (req : NextStepRequest.t) (a : string),
    NextStepRequest.model_validate d = Ret req ->
    NextStepRequest.raw_user_action d = Some (Some a) ->
    strip a <> EmptyString ->
    NextStepRequest.choice_id req = None
    /\ NextStepRequest.user_action req = Some a
    /\ action_description_line req = custom_action_line a.
Proof.
  intros d req a Hvalid Hraw Hstrip.
  assert (Haction : NextStepRequest.action_exists d = true).
  { apply action_exists_iff. now exists a. }
  assert (Ha : str_truthy a = true).
  { destruct a; [|reflexivity]. now rewrite strip_empty in Hstrip. }
  unfold NextStepRequest.model_validate,
    NextStepRequest.check_choice_or_action in Hvalid.
  rewrite Haction in Hvalid.
  destruct (NextStepRequest.choice_exists d) eqn:Hchoice;
    cbn in Hvalid; [discriminate Hvalid|].
  injection Hvalid as <-.
  unfold NextStepRequest.choice_exists, NextStepRequest.present in Hchoice.
  unfold action_description_line.
  cbn [NextStepRequest.choice_id NextStepRequest.user_action].
  rewrite Hraw. cbn [NextStepRequest.field_value opt_truthy fmt_opt].
  rewrite Ha.
  destruct (NextStepRequest.raw_choice_id d) as [[c|]|];
    [discriminate Hchoice| |]; now repeat split.
Qed.

Lemma custom_action_is_quoted_as_sent_witness :
  action_description_line
    (NextStepRequest.mk None (Some "  climb the tree ") [step0] None 1 5)
  = custom_action_line "  climb the tree ".
Proof.
  apply (custom_action_is_quoted_as_sent
           (NextStepRequest.mk_data None (Some (Some "  climb the tree "))
              [step0] None 1 5)
           _ "  climb the tree ");
    [reflexivity | reflexivity | vm_compute; discriminate].
Defined.

(** ** The transcript *)

Lemma append_nil_r (a : string) : a ++ EmptyString = a.
Proof. induction a as [|x a IH]; cbn; [reflexivity|]. now rewrite IH. Qed.

Lemma transcript_app i h1 h2 :
  transcript i (h1 ++ h2)%list
  = transcript i h1 ++ transcript (i + Z.of_nat (List.length h1)) h2.
Proof.
  revert i. induction h1 as [|part h1 IH]; intros i.
  - cbn. now rewrite Z.add_0_r.
  - cbn [app transcript List.length]. rewrite IH.
    replace (i + 1 + Z.of_nat (List.length h1))
      with (i + Z.of_nat (S (List.length h1))) by lia.
    now rewrite !append_assoc.
Qed.

(** X16. The story context lists the steps of the history in order, one
    line each, numbered from 1: a history one step longer has the same
    context followed by one more line, numbered with its length, that holds
    the new step's text. *)
Theorem story_context_grows_by_one_line :
  forall (req req' : NextStepRequest.t) (part : StoryResponse.t),
    NextStepRequest.story_history req'
    = (NextStepRequest.story_history req ++ [part])%list ->
    story_context req'
    = story_context req
      ++ "第 "
      ++ str_of_int (Z.of_nat (List.length (NextStepRequest.story_history req')))
      ++ " 幕: " ++ StoryResponse.text part ++ nl.
Proof.
  intros req req' part Hhist.
  unfold story_context. rewrite Hhist, transcript_app.
  rewrite length_app. cbn [List.length transcript].
  rewrite append_nil_r, Z.add_0_l, !append_assoc.
  replace (Z.of_nat (List.length (NextStepRequest.story_history req)) + 1)
    with (Z.of_nat (List.length (NextStepRequest.story_history req) + 1)) by lia.
  reflexivity.
Qed.

Lemma story_context_grows_by_one_line_witness :
  story_context
    (NextStepRequest.mk (Some "A") None
       [step0; StoryResponse.mk "t1" None [] "q"] None 2 5)
  = story_context (NextStepRequest.mk (Some "A") None [step0] None 1 5)
    ++ "第 " ++ "2" ++ " 幕: " ++ "t1" ++ nl.
Proof.
  apply (story_context_grows_by_one_line
           (NextStepRequest.mk (Some "A") None [step0] None 1 5)
           (NextStepRequest.mk (Some "A") None
              [step0; StoryResponse.mk "t1" None [] "q"] None 2 5)
           (StoryResponse.mk "t1" None [] "q")).
  reflexivity.
Defined.

(** ** More on the narrative phase *)

(** X17. A story needs four steps to have a climax. With total_steps at
    most 3 no step gets the climax guidance: each gets the finale text (the
    last one) or the developing text. From 4 steps on (below 2^51) the step
    before the last always gets the climax guidance. *)
Theorem climax_needs_four_steps :
  forall (req : NextStepRequest.t),
    let current := NextStepRequest.current_step req in
    let total := NextStepRequest.total_steps req in
    (1 <= current <= total -> total <= 3 ->
     narrative_guidance req = Ret (finale_guidance (main_quest_line req))
     \/ narrative_guidance req
        = Ret (developing_guidance current total (main_quest_line req)))
    /\ (4 <= total < 2 ^ 51 -> current = total - 1 ->
        narrative_guidance req = Ret (climax_guidance current total)).
Proof.
  intros req current total.
  assert (P51 : 8 < 2 ^ 51) by reflexivity.
  unfold narrative_guidance, is_final_step. fold current total.
  split.
  - intros Hrange Hsmall.
    destruct (Z.eqb_spec current total) as [E|E]; [now left|right].
    rewrite int_times_three_quarters by lia.
    rewrite int_ge_three_quarters.
    assert (F : (3 * total <=? 4 * current) = false) by (apply Z.leb_gt; lia).
    now rewrite F.
  - intros Hrange Hcurrent.
    assert (E : (current =? total) = false) by (apply Z.eqb_neq; lia).
    rewrite E, int_times_three_quarters by lia.
    rewrite int_ge_three_quarters.
    assert (F : (3 * total <=? 4 * current) = true) by (apply Z.leb_le; lia).
    now rewrite F.
Qed.

Lemma climax_needs_four_steps_witness :
  narrative_guidance (NextStepRequest.mk (Some "A") None [step0] None 2 3)
  = Ret (developing_guidance 2 3 "find the acorn")
  /\ narrative_guidance (NextStepRequest.mk (Some "A") None [step0] None 3 4)
     = Ret (climax_guidance 3 4).
Proof.
  split.
  - destruct (proj1 (climax_needs_four_steps
                       (NextStepRequest.mk (Some "A") None [step0] None 2 3)))
      as [H|H]; cbn; try lia.
    + vm_compute in H. discriminate H.
    + exact H.
  - apply (climax_needs_four_steps
             (NextStepRequest.mk (Some "A") None [step0] None 3 4)).
    + cbn. split; [lia | reflexivity].
    + reflexivity.
Defined.

(** ** Choices of the generator *)

Lemma story_choice_round_trip c : story_choice (choice_to_json c) = Ret c.
Proof. destruct c. reflexivity. Qed.

Lemma story_choices_round_trip cs :
  story_choices (map choice_to_json cs) = Ret cs.
Proof.
  induction cs as [|c cs IH]; [reflexivity|].
  cbn [map story_choices]. now rewrite story_choice_round_trip, IH.
Qed.

(** X18. Reading the generator's choice list. A list of objects with string
    "id" and "text" is read back as the same choices, in the same order; one
    entry that is not an object makes the whole list fail with [TypeError],
    whatever the other entries are, as long as those before it are well
    formed. *)
Theorem choice_list_round_trip :
  forall (cs : list StoryChoice.t),
    choice_list (JArr (map choice_to_json cs)) = Ret cs
    /\ forall (bad : json) (rest : list json),
         (forall d, bad <> JObj d) ->
         choice_list (JArr (map choice_to_json cs ++ bad :: rest))
         = Raise TypeError.
Proof.
  intros cs. split; [apply story_choices_round_trip|].
  intros bad rest Hbad. cbn [choice_list].
  induction cs as [|c cs IH].
  - cbn. destruct bad; try reflexivity. exfalso. now apply (Hbad fields).
  - cbn [map app story_choices]. rewrite story_choice_round_trip.
    now rewrite IH.
Qed.

Lemma choice_list_round_trip_witness :
  choice_list
    (JArr [choice_to_json (StoryChoice.mk "A" "go left"); JStr "go right"])
  = Raise TypeError.
Proof.
  apply (proj2 (choice_list_round_trip [StoryChoice.mk "A" "go left"])
           (JStr "go right") []).
  intros d. discriminate.
Defined.

(** ** More on the start handler *)

(** X19. The start handler echoes the generator. Once the upload (if any)
    has decoded and the generator has answered with an object holding string
    "text" and "main_quest", an "image_prompt" and a well-formed choice list,
    a step is returned with exactly that text, those choices and that main
    quest, whatever happens to the picture; its image address is the
    placeholder or the address of the picture just stored, never a previous
    address. *)
Theorem start_echoes_the_generator :
  forall (w : world) (req : StoryStartRequest.t) (st : state)
         (image_input : option image) (d : dict) (t q : string) (ip cv : json)
         (cs : list StoryChoice.t),
    image_input_for_gemini w req st = (Ret image_input, st) ->
    text_model w (text_contents (initial_prompt_text req) image_input)
    = TextJson (JObj d) ->
    dict_get d "text" = Some (JStr t) ->
    dict_get d "image_prompt" = Some ip ->
    dict_get d "choices" = Some cv ->
    choice_list cv = Ret cs ->
    dict_get d "main_quest" = Some (JStr q) ->
    exists url st',
      start_story w req st = (Ret (StoryResponse.mk t (Some url) cs q), st')
      /\ (url = placeholder_url \/ url = new_image_url w (tokens st)).
Proof.
  intros w req st image_input d t q ip cv cs
    Hinput Htext Ht Hip Hcv Hcs Hq.
  unfold start_story. unfold bind at 1. rewrite Hinput.
  unfold generate_story_part, call_text_model.
  unfold bind, lift, ret, raise.
  rewrite Htext. cbv beta iota.
  destruct (orchestrator_url w (final_image_prompt w ip) None image_input
              (log (TextCall
                      (text_contents (initial_prompt_text req) image_input))
                 st))
    as (url & st2 & Hrun & Hurl).
  exists url, st2. split; [|exact Hurl].
  rewrite (subscript_obj _ _ _ Hip), Hrun, (subscript_obj _ _ _ Ht),
    (subscript_obj _ _ _ Hcv), Hcs, (subscript_obj _ _ _ Hq).
  reflexivity.
Qed.

Lemma start_echoes_the_generator_witness :
  exists st',
    start_story
      (world_with (TextJson (answer two_choices))
         (ImageRaises (ServiceError "down")))
      (StoryStartRequest.mk (Some "Mimi") "forest" 5 None) empty_state
    = (Ret (StoryResponse.mk "once" (Some placeholder_url)
              [StoryChoice.mk "A" "x"; StoryChoice.mk "B" "y"] "drifted"),
       st').
Proof.
  set (w := world_with (TextJson (answer two_choices))
              (ImageRaises (ServiceError "down"))).
  set (req := StoryStartRequest.mk (Some "Mimi") "forest" 5 None).
  destruct (start_echoes_the_generator w req empty_state None
              [("text", JStr "once"); ("image_prompt", JStr "a cat");
               ("choices", JArr two_choices); ("main_quest", JStr "drifted")]
              "once" "drifted" (JStr "a cat") (JArr two_choices)
              [StoryChoice.mk "A" "x"; StoryChoice.mk "B" "y"])
    as (url & st' & Hrun & Hurl); try reflexivity.
  assert (E : url = placeholder_url).
  { pose proof (f_equal fst Hrun) as H. vm_compute in H.
    injection H as H. unfold placeholder_url. congruence. }
  subst url. now exists st'.
Defined.
